(** * Recipe platform backend: the recipe store of [main.py]

    A shallow embedding of the recipe lifecycle implemented by [main.py]
    (FastAPI handlers over a SQLAlchemy session) together with the
    properties of its create / read / update / soft-delete / search /
    pagination / statistics operations.

    Conventions of the embedding.
    - The [recipes] table is a list of rows kept in primary-key order, the
      order in which the default SQLite backend scans it.
    - A handler is a function from the table to a response and the table
      after the handler's transaction.  Every [datetime.utcnow()] call
      site is an explicit argument.
    - Python [str] is [string]; characters are the code points below 256.
    - Python [int] is [Z].
    - Commits are assumed to reach the storage engine: the only commit
      failure that is modelled is the NOT NULL constraint declared in the
      schema. *)

From Stdlib Require Import ZArith Ascii String List Lia Bool.
From stdpp Require Import base decidable option list sorting gmap strings.

Local Open Scope Z_scope.

(** ** Text primitives *)

Module Str.

Definition chars (s : string) : list ascii := String.list_ascii_of_string s.
Definition of_chars (l : list ascii) : string := String.string_of_list_ascii l.

(** [len(s)] *)
Definition len (s : string) : Z := Z.of_nat (String.length s).

(** [str.isspace] on a single character, for code points below 256:
    TAB, LF, VT, FF, CR, the separators 0x1c-0x1f, SPACE, NEL and NBSP. *)
Definition isspace (c : ascii) : bool :=
  let n := N_of_ascii c in
  ((9 <=? n) && (n <=? 13) || (28 <=? n) && (n <=? 32)
   || (n =? 133) || (n =? 160))%N.

Fixpoint lstrip_chars (l : list ascii) : list ascii :=
  match l with
  | c :: l' => if isspace c then lstrip_chars l' else l
  | [] => []
  end.

Definition rstrip_chars (l : list ascii) : list ascii :=
  rev (lstrip_chars (rev l)).

(** [s.strip()] *)
Definition strip (s : string) : string :=
  of_chars (rstrip_chars (lstrip_chars (chars s))).

(** Truthiness of a [str]: [not v] holds for the empty string only. *)
Definition truthy (s : string) : bool :=
  match s with EmptyString => false | String _ _ => true end.

(** [needle in hay], literal and case-sensitive. *)
Fixpoint prefix_chars (p l : list ascii) : bool :=
  match p, l with
  | [], _ => true
  | a :: p', b :: l' => Ascii.eqb a b && prefix_chars p' l'
  | _ :: _, [] => false
  end.

Fixpoint infix_chars (p l : list ascii) : bool :=
  prefix_chars p l ||
  match l with
  | [] => false
  | _ :: l' => infix_chars p l'
  end.

Definition substring (needle hay : string) : bool :=
  infix_chars (chars needle) (chars hay).

(** ASCII lower-casing, the only case folding SQLite's LIKE applies. *)
Definition ascii_lower (c : ascii) : ascii :=
  let n := N_of_ascii c in
  if ((65 <=? n) && (n <=? 90))%N then ascii_of_N (n + 32) else c.

Definition lower (s : string) : string :=
  of_chars (map ascii_lower (chars s)).

End Str.

(** ** The storage engine's LIKE operator

    [Column.contains(other)] renders [column LIKE '%' || other || '%'];
    the wildcards [%] and [_] inside [other] are not escaped.  The engine
    is chosen by [DATABASE_URL]: SQLite by default, PostgreSQL when the URL
    says so.  SQLite's LIKE ignores the case of ASCII letters and has no
    escape character; PostgreSQL's LIKE is case-sensitive and uses the
    backslash as escape character. *)

Inductive dialect := SQLite | PostgreSQL.

Module Like.

Definition percent : ascii := "%"%char.
Definition underscore : ascii := "_"%char.
Definition backslash : ascii := "\"%char.

Definition fold_case (d : dialect) (c : ascii) : ascii :=
  match d with SQLite => Str.ascii_lower c | PostgreSQL => c end.

Definition is_escape (d : dialect) (c : ascii) : bool :=
  match d with SQLite => false | PostgreSQL => Ascii.eqb c backslash end.

Definition same_char (d : dialect) (a b : ascii) : bool :=
  Ascii.eqb (fold_case d a) (fold_case d b).

(** [matches d p s]: the string [s] matches the LIKE pattern [p]. *)
Fixpoint matches (d : dialect) (p : list ascii) : list ascii → bool :=
  match p with
  | [] => fun s => match s with [] => true | _ :: _ => false end
  | c :: p' =>
    if Ascii.eqb c percent then
      fix any (s : list ascii) : bool :=
        matches d p' s || match s with [] => false | _ :: s' => any s' end
    else if Ascii.eqb c underscore then
      fun s => match s with [] => false | _ :: s' => matches d p' s' end
    else if is_escape d c then
      match p' with
      | [] => fun _ => false
      | e :: p'' =>
        fun s => match s with
                 | [] => false
                 | b :: s' => same_char d e b && matches d p'' s'
                 end
      end
    else
      fun s => match s with
               | [] => false
               | b :: s' => same_char d c b && matches d p' s'
               end
  end.

(** [column LIKE '%' || other || '%']; NULL columns never match. *)
Definition contains (d : dialect) (column : option string) (other : string) : bool :=
  match column with
  | None => false
  | Some s =>
    matches d (percent :: Str.chars other ++ [percent]) (Str.chars s)
  end.

End Like.

(** ** Data model *)

Abbreviation datetime := Z (only parsing).

(** The eleven payload attributes shared by [Recipe], [RecipeBase] and
    [RecipeUpdate], in declaration order. *)
Inductive field :=
| f_name | f_description | f_ingredients | f_instructions
| f_prep_time | f_cook_time | f_servings
| f_difficulty | f_category | f_tags | f_image_url.

Global Instance field_eq_dec : EqDecision field.
Proof. solve_decision. Defined.

Definition fields : list field :=
  [f_name; f_description; f_ingredients; f_instructions;
   f_prep_time; f_cook_time; f_servings;
   f_difficulty; f_category; f_tags; f_image_url].

(** Python type of an attribute: [int] for the three numeric ones, [str]
    otherwise.  [None] is the [option]. *)
Definition field_ty (f : field) : Type :=
  match f with
  | f_prep_time | f_cook_time | f_servings => Z
  | _ => string
  end.

(** A [dict] keyed by attribute name: [None] when the key is absent,
    [Some v] when it maps to [v] (which may itself be Python's [None]). *)
Definition dict : Type := ∀ f : field, option (option (field_ty f)).

(** [class Recipe(Base)]: a row of the [recipes] table.  [is_deleted] is
    the string column of the source, "false" by default. *)
Module Recipe.
Record t := mk {
  id : Z;
  name : option string;
  description : option string;
  ingredients : option string;
  instructions : option string;
  prep_time : option Z;
  cook_time : option Z;
  servings : option Z;
  difficulty : option string;
  category : option string;
  tags : option string;
  image_url : option string;
  created_at : datetime;
  updated_at : datetime;
  is_deleted : string
}.
End Recipe.

Global Instance Recipe_eq_dec : EqDecision Recipe.t.
Proof. solve_decision. Defined.

(** [getattr(recipe, field)] *)
Definition getattr (r : Recipe.t) (f : field) : option (field_ty f) :=
  match f with
  | f_name => Recipe.name r
  | f_description => Recipe.description r
  | f_ingredients => Recipe.ingredients r
  | f_instructions => Recipe.instructions r
  | f_prep_time => Recipe.prep_time r
  | f_cook_time => Recipe.cook_time r
  | f_servings => Recipe.servings r
  | f_difficulty => Recipe.difficulty r
  | f_category => Recipe.category r
  | f_tags => Recipe.tags r
  | f_image_url => Recipe.image_url r
  end.

(** [setattr(recipe, field, value)] *)
Definition setattr (r : Recipe.t) (f : field) : option (field_ty f) → Recipe.t :=
  let '(Recipe.mk i n d g s p c v y k t u ca ua del) := r in
  match f with
  | f_name => fun x => Recipe.mk i x d g s p c v y k t u ca ua del
  | f_description => fun x => Recipe.mk i n x g s p c v y k t u ca ua del
  | f_ingredients => fun x => Recipe.mk i n d x s p c v y k t u ca ua del
  | f_instructions => fun x => Recipe.mk i n d g x p c v y k t u ca ua del
  | f_prep_time => fun x => Recipe.mk i n d g s x c v y k t u ca ua del
  | f_cook_time => fun x => Recipe.mk i n d g s p x v y k t u ca ua del
  | f_servings => fun x => Recipe.mk i n d g s p c x y k t u ca ua del
  | f_difficulty => fun x => Recipe.mk i n d g s p c v x k t u ca ua del
  | f_category => fun x => Recipe.mk i n d g s p c v y x t u ca ua del
  | f_tags => fun x => Recipe.mk i n d g s p c v y k x u ca ua del
  | f_image_url => fun x => Recipe.mk i n d g s p c v y k t x ca ua del
  end.

Definition set_updated_at (r : Recipe.t) (now : datetime) : Recipe.t :=
  let '(Recipe.mk i n d g s p c v y k t u ca _ del) := r in
  Recipe.mk i n d g s p c v y k t u ca now del.

Definition set_is_deleted (r : Recipe.t) (flag : string) : Recipe.t :=
  let '(Recipe.mk i n d g s p c v y k t u ca ua _) := r in
  Recipe.mk i n d g s p c v y k t u ca ua flag.

(** One turn of the loop below: [setattr] when [field] is a key of [data]. *)
Definition setattr_item (data : dict) (acc : Recipe.t) (f : field) : Recipe.t :=
  match data f with
  | Some v => setattr acc f v
  | None => acc
  end.

(** [for field, value in data.items(): setattr(recipe, field, value)] *)
Definition setattr_items (data : dict) (r : Recipe.t) : Recipe.t :=
  foldl (setattr_item data) r fields.

(** [class RecipeBase(BaseModel)] (and [RecipeCreate], which adds nothing). *)
Module RecipeBase.
Record t := mk {
  name : string;
  description : option string;
  ingredients : string;
  instructions : string;
  prep_time : option Z;
  cook_time : option Z;
  servings : option Z;
  difficulty : option string;
  category : option string;
  tags : option string;
  image_url : option string
}.

(** [.dict()]: every field is a key. *)
Definition dict (b : t) : dict := fun f =>
  match f with
  | f_name => Some (Some (name b))
  | f_description => Some (description b)
  | f_ingredients => Some (Some (ingredients b))
  | f_instructions => Some (Some (instructions b))
  | f_prep_time => Some (prep_time b)
  | f_cook_time => Some (cook_time b)
  | f_servings => Some (servings b)
  | f_difficulty => Some (difficulty b)
  | f_category => Some (category b)
  | f_tags => Some (tags b)
  | f_image_url => Some (image_url b)
  end.
End RecipeBase.

(** [class RecipeUpdate(BaseModel)]: every field optional and without a
    validator.  A field is [None] when the request did not set it and
    [Some v] when it did, [v] being the value given ([None] for JSON null). *)
Module RecipeUpdate.
Record t := mk {
  name : option (option string);
  description : option (option string);
  ingredients : option (option string);
  instructions : option (option string);
  prep_time : option (option Z);
  cook_time : option (option Z);
  servings : option (option Z);
  difficulty : option (option string);
  category : option (option string);
  tags : option (option string);
  image_url : option (option string)
}.

(** [.dict(exclude_unset=True)]: only the fields that were set. *)
Definition dict_exclude_unset (u : t) : dict := fun f =>
  match f with
  | f_name => name u
  | f_description => description u
  | f_ingredients => ingredients u
  | f_instructions => instructions u
  | f_prep_time => prep_time u
  | f_cook_time => cook_time u
  | f_servings => servings u
  | f_difficulty => difficulty u
  | f_category => category u
  | f_tags => tags u
  | f_image_url => image_url u
  end.

(** The update that sets nothing (the JSON body [{}]). *)
Definition empty : t :=
  mk None None None None None None None None None None None.
End RecipeUpdate.

(** ** Validators of [RecipeBase] *)

Definition msg_name : string := "El nombre debe tener al menos 3 caracteres".
Definition msg_ingredients : string :=
  "Los ingredientes deben tener al menos 10 caracteres".
Definition msg_instructions : string :=
  "Las instrucciones deben tener al menos 20 caracteres".
Definition msg_positive : string := "Debe ser un número mayor a 0".

(** A validator either raises [ValueError(msg)] or returns the value to keep. *)
Definition validate_name (v : string) : string + string :=
  if negb (Str.truthy v) || (Str.len (Str.strip v) <? 3)
  then inl msg_name else inr (Str.strip v).

Definition validate_ingredients (v : string) : string + string :=
  if negb (Str.truthy v) || (Str.len (Str.strip v) <? 10)
  then inl msg_ingredients else inr (Str.strip v).

Definition validate_instructions (v : string) : string + string :=
  if negb (Str.truthy v) || (Str.len (Str.strip v) <? 20)
  then inl msg_instructions else inr (Str.strip v).

Definition validate_positive_numbers (v : option Z) : string + option Z :=
  match v with
  | Some n => if n <=? 0 then inl msg_positive else inr v
  | None => inr v
  end.

(** One entry of a pydantic [ValidationError]: the field and the message. *)
Abbreviation error_entry := (field * string)%type.

Definition raised {A} (f : field) (r : string + A) : list error_entry :=
  match r with inl m => [(f, m)] | inr _ => [] end.

(** Model validation: every field's validator runs, in declaration order;
    the errors of all of them are collected, and the model is built from
    the validators' return values when there is none. *)
Definition RecipeBase_validate (raw : RecipeBase.t)
  : list error_entry + RecipeBase.t :=
  let rn := validate_name (RecipeBase.name raw) in
  let rg := validate_ingredients (RecipeBase.ingredients raw) in
  let rs := validate_instructions (RecipeBase.instructions raw) in
  let rp := validate_positive_numbers (RecipeBase.prep_time raw) in
  let rc := validate_positive_numbers (RecipeBase.cook_time raw) in
  let rv := validate_positive_numbers (RecipeBase.servings raw) in
  match rn, rg, rs, rp, rc, rv with
  | inr n, inr g, inr s, inr p, inr c, inr v =>
    inr (RecipeBase.mk n (RecipeBase.description raw) g s p c v
           (RecipeBase.difficulty raw) (RecipeBase.category raw)
           (RecipeBase.tags raw) (RecipeBase.image_url raw))
  | _, _, _, _, _, _ =>
    inl (raised f_name rn ++ raised f_ingredients rg
         ++ raised f_instructions rs ++ raised f_prep_time rp
         ++ raised f_cook_time rc ++ raised f_servings rv)
  end.

(** ** The session and its queries *)

(** The [recipes] table as seen by a [Session]. *)
Abbreviation Session := (list Recipe.t).

Inductive DBError :=
| IntegrityError (column : field). (* NOT NULL constraint failed *)

Inductive detail :=
| Text (s : string)
| ExcStr (e : DBError)               (* [str(e)] *)
| Errors (es : list error_entry)     (* body validation errors *)
| Invalid (parameter : string).      (* a query parameter out of its bounds *)

Inductive response (A : Type) :=
| Ok (a : A)
| HTTPException (status_code : Z) (d : detail).
Arguments Ok {A} a.
Arguments HTTPException {A} status_code d.

Definition not_found {A} : response A :=
  HTTPException 404 (Text "Receta no encontrada").
Definition internal_error {A} : response A :=
  HTTPException 500 (Text "Error interno del servidor").

Definition get_recipe_by_id (db : Session) (recipe_id : Z) : option Recipe.t :=
  head (filter (fun r => Recipe.id r = recipe_id ∧ Recipe.is_deleted r = "false") db).


Definition search_recipes_by_name (d : dialect) (db : Session) (name : string)
  : list Recipe.t :=
  filter (fun r => Like.contains d (Recipe.name r) name = true
                   ∧ Recipe.is_deleted r = "false") db.

Definition search_recipes_by_ingredient (d : dialect) (db : Session)
  (ingredient : string) : list Recipe.t :=
  filter (fun r => Like.contains d (Recipe.ingredients r) ingredient = true
                   ∧ Recipe.is_deleted r = "false") db.

Definition search_recipes_by_category (d : dialect) (db : Session)
  (category : string) : list Recipe.t :=
  filter (fun r => Like.contains d (Recipe.category r) category = true
                   ∧ Recipe.is_deleted r = "false") db.

(** *** Commit *)

(** The columns declared [nullable=False]. *)
Definition not_null_violation (r : Recipe.t) : option field :=
  match Recipe.name r, Recipe.ingredients r, Recipe.instructions r with
  | None, _, _ => Some f_name
  | _, None, _ => Some f_ingredients
  | _, _, None => Some f_instructions
  | _, _, _ => None
  end.

(** Primary key given to the next inserted row: one more than the largest
    in the table. *)
Definition next_id (db : Session) : Z :=
  1 + foldr Z.max 0 (Recipe.id <$> db).

(** [db.add(r); db.commit()] *)
Definition commit_insert (r : Recipe.t) (db : Session) : DBError + Session :=
  match not_null_violation r with
  | Some c => inl (IntegrityError c)
  | None => inr (db ++ [r])
  end.

(** [db.commit()] with [r] modified: UPDATE ... WHERE id = r.id *)
Definition commit_update (r : Recipe.t) (db : Session) : DBError + Session :=
  match not_null_violation r with
  | Some c => inl (IntegrityError c)
  | None =>
    inr ((fun old => if decide (Recipe.id old = Recipe.id r) then r else old) <$> db)
  end.

(** ** Handlers *)

(** A fresh [Recipe()] as the INSERT completes it: primary key, the two
    [default=datetime.utcnow] columns and [is_deleted] default "false". *)
Definition blank (i : Z) (now_created now_updated : datetime) : Recipe.t :=
  Recipe.mk i None None None None None None None None None None None
            now_created now_updated "false".


(** [GET /api/recipes/{recipe_id}] *)
Definition get_recipe (recipe_id : Z) (db : Session) : response Recipe.t :=
  match get_recipe_by_id db recipe_id with
  | None => not_found
  | Some recipe => Ok recipe
  end.

(** [POST /api/recipes], after the body has been validated. *)
Definition create_recipe (now_created now_updated : datetime)
  (recipe : RecipeBase.t) (db : Session) : response Recipe.t * Session :=
  let db_recipe :=
    setattr_items (RecipeBase.dict recipe)
                  (blank (next_id db) now_created now_updated) in
  match commit_insert db_recipe db with
  | inr db' => (Ok db_recipe, db')
  | inl e => (HTTPException 400 (ExcStr e), db)
  end.

(** [POST /api/recipes] from the request body. *)
Definition post_recipes (now_created now_updated : datetime)
  (body : RecipeBase.t) (db : Session) : response Recipe.t * Session :=
  match RecipeBase_validate body with
  | inl es => (HTTPException 422 (Errors es), db)
  | inr recipe => create_recipe now_created now_updated recipe db
  end.

(** [PUT /api/recipes/{recipe_id}], after the body has been validated. *)
Definition update_recipe (now : datetime) (recipe_id : Z)
  (recipe_update : RecipeBase.t) (db : Session) : response Recipe.t * Session :=
  match get_recipe_by_id db recipe_id with
  | None => (not_found, db)
  | Some recipe =>
    let recipe := setattr_items (RecipeBase.dict recipe_update) recipe in
    let recipe := set_updated_at recipe now in
    match commit_update recipe db with
    | inr db' => (Ok recipe, db')
    | inl e => (HTTPException 400 (ExcStr e), db)
    end
  end.

Definition put_recipe (now : datetime) (recipe_id : Z)
  (body : RecipeBase.t) (db : Session) : response Recipe.t * Session :=
  match RecipeBase_validate body with
  | inl es => (HTTPException 422 (Errors es), db)
  | inr recipe_update => update_recipe now recipe_id recipe_update db
  end.

(** [PATCH /api/recipes/{recipe_id}]: [RecipeUpdate] has no validator, so
    the body reaches the handler as sent. *)
Definition patch_recipe (now : datetime) (recipe_id : Z)
  (recipe_update : RecipeUpdate.t) (db : Session) : response Recipe.t * Session :=
  match get_recipe_by_id db recipe_id with
  | None => (not_found, db)
  | Some recipe =>
    let update_data := RecipeUpdate.dict_exclude_unset recipe_update in
    let recipe := setattr_items update_data recipe in
    let recipe := set_updated_at recipe now in
    match commit_update recipe db with
    | inr db' => (Ok recipe, db')
    | inl e => (HTTPException 400 (ExcStr e), db)
    end
  end.

(** [DELETE /api/recipes/{recipe_id}]: soft delete. *)
Definition delete_recipe (now : datetime) (recipe_id : Z) (db : Session)
  : response string * Session :=
  match get_recipe_by_id db recipe_id with
  | None => (not_found, db)
  | Some recipe =>
    let recipe := set_is_deleted recipe "true" in
    let recipe := set_updated_at recipe now in
    match commit_update recipe db with
    | inr db' => (Ok "Receta eliminada exitosamente", db')
    | inl _ => (internal_error, db)
    end
  end.

(** [GET /api/recipes/search].  The [Query] declarations come first: [q]
    has [min_length=1] and [type] must match [^(name|ingredient|category)$].
    The handler's last branch raises inside its own [try], whose
    [except Exception] turns it into a 500. *)
Definition search_type_ok (type : string) : bool :=
  String.eqb type "name" || String.eqb type "ingredient"
  || String.eqb type "category".

Definition search_recipes (d : dialect) (q type : string) (db : Session)
  : response (list Recipe.t) :=
  if negb (Str.truthy q) then HTTPException 422 (Invalid "q")
  else if negb (search_type_ok type) then HTTPException 422 (Invalid "type")
  else if String.eqb type "name" then Ok (search_recipes_by_name d db q)
  else if String.eqb type "ingredient" then Ok (search_recipes_by_ingredient d db q)
  else if String.eqb type "category" then Ok (search_recipes_by_category d db q)
  else internal_error.

(** [GET /api/stats] *)
Record Stats := mkStats {
  total_recipes : nat;
  total_deleted : nat;
  categories : gmap string nat;
  timestamp : datetime
}.

(** [query(Recipe.category).filter(is_deleted == "false").distinct().all()] *)
Definition distinct_categories (db : Session) : list (option string) :=
  remove_dups (Recipe.category <$> filter (fun r => Recipe.is_deleted r = "false") db).

(** The loop body of [get_stats]: [if category:] skips NULL and the empty
    string. *)
Definition count_category (db : Session) (category_counts : gmap string nat)
  (category : option string) : gmap string nat :=
  match category with
  | Some c =>
    if Str.truthy c then
      let count :=
        length (filter (fun r => Recipe.category r = Some c
                                 ∧ Recipe.is_deleted r = "false") db) in
      <[c := count]> category_counts
    else category_counts
  | None => category_counts
  end.

Definition get_stats (now : datetime) (db : Session) : Stats :=
  let total_recipes := length (filter (fun r => Recipe.is_deleted r = "false") db) in
  let total_deleted := length (filter (fun r => Recipe.is_deleted r = "true") db) in
  let categories := distinct_categories db in
  let category_counts := foldl (count_category db) ∅ categories in
  mkStats total_recipes total_deleted category_counts now.

(** ** The API as a transition system *)

Inductive request :=
| GET_recipes (skip limit : Z)
| GET_recipe (recipe_id : Z)
| POST_recipes (now_created now_updated : datetime) (body : RecipeBase.t)
| PUT_recipe (now : datetime) (recipe_id : Z) (body : RecipeBase.t)
| PATCH_recipe (now : datetime) (recipe_id : Z) (body : RecipeUpdate.t)
| DELETE_recipe (now : datetime) (recipe_id : Z)
| GET_search (q type : string)
| GET_stats (now : datetime).

(** The table after a request has been served. *)
Definition serve (req : request) (db : Session) : Session :=
  match req with
  | POST_recipes nc nu body => snd (post_recipes nc nu body db)
  | PUT_recipe now i body => snd (put_recipe now i body db)
  | PATCH_recipe now i body => snd (patch_recipe now i body db)
  | DELETE_recipe now i => snd (delete_recipe now i db)
  | GET_recipes _ _ | GET_recipe _ | GET_search _ _ | GET_stats _ => db
  end.

Definition serve_all (reqs : list request) (db : Session) : Session :=
  foldl (fun db req => serve req db) db reqs.

(** *** Sample data, after the payload of the test suite *)

Definition sample_recipe : RecipeBase.t :=
  RecipeBase.mk
    "Pasta Carbonara"
    (Some "Deliciosa pasta italiana con huevos y panceta")
    "400g pasta, 200g panceta, 4 huevos, 100g queso parmesano"
    "1. Hervir la pasta 2. Freir la panceta 3. Mezclar huevos con queso"
    (Some 15) (Some 20) (Some 4)
    (Some "medio") (Some "almuerzo") (Some "italiana, pasta") None.

(** [sample_recipe] with another [name] and [category]. *)
Definition sample_with (name : string) (category : option string) : RecipeBase.t :=
  RecipeBase.mk name (RecipeBase.description sample_recipe)
    (RecipeBase.ingredients sample_recipe) (RecipeBase.instructions sample_recipe)
    (RecipeBase.prep_time sample_recipe) (RecipeBase.cook_time sample_recipe)
    (RecipeBase.servings sample_recipe) (RecipeBase.difficulty sample_recipe)
    category (RecipeBase.tags sample_recipe) (RecipeBase.image_url sample_recipe).

(** The table after one POST of [sample_recipe] at time 1000. *)
Definition db1 : Session := snd (post_recipes 1000 1000 sample_recipe []).

(** ... and after a DELETE of that recipe at time 2000. *)
Definition db1_deleted : Session := snd (delete_recipe 2000 1 db1).

(** The PATCH body [{"name": "AB"}]. *)
Definition patch_short_name : RecipeUpdate.t :=
  RecipeUpdate.mk (Some (Some "AB")) None None None None None None None None
                  None None.

(** Three recipes in the categories almuerzo, almuerzo and cena, the first
    of them soft-deleted afterwards. *)
Definition db_stats : Session :=
  serve_all [POST_recipes 1 1 (sample_with "Pasta Carbonara" (Some "almuerzo"));
             POST_recipes 2 2 (sample_with "Arroz con pollo" (Some "almuerzo"));
             POST_recipes 3 3 (sample_with "Sopa de ajo" (Some "cena"));
             DELETE_recipe 4 1] [].

(** A valid create input whose name has surrounding blanks. *)
Definition padded_recipe : RecipeBase.t := sample_with "  Tarta  " (Some "postre").

(** One recipe whose category is the empty string. *)
Definition db_empty_category : Session :=
  serve_all [POST_recipes 1 1 (sample_with "Pasta Carbonara" (Some ""))] [].

(** ** Image upload *)

(** [s.split(sep)] for a one-character separator: never empty. *)
Fixpoint split_chars (sep : ascii) (l : list ascii) : list (list ascii) :=
  match l with
  | [] => [[]]
  | c :: l' =>
    if Ascii.eqb c sep then [] :: split_chars sep l'
    else match split_chars sep l' with
         | part :: parts => (c :: part) :: parts
         | [] => [[c]]
         end
  end.

(** [image.filename.split(".")[-1]] *)
Definition file_extension (filename : string) : string :=
  Str.of_chars (default [] (last (split_chars "."%char (Str.chars filename)))).

(** [f"{uuid.uuid4()}.{file_extension}"], the uuid being an argument. *)
Definition unique_filename (uuid4 filename : string) : string :=
  String.append uuid4 (String.append "." (file_extension filename)).

Definition allowed_types : list string :=
  ["image/jpeg"; "image/png"; "image/gif"; "image/webp"].

Definition max_upload_size : Z := 5 * 1024 * 1024.

(** The attributes of [UploadFile] that the handler reads. *)
Module UploadFile.
Record t := mk {
  filename : option string;
  content_type : option string;
  size : option Z
}.
End UploadFile.

Record ImageUploadResponse := mkImageUploadResponse {
  image_url : string;
  message : string
}.

Definition msg_upload_type : string :=
  "Tipo de archivo no válido. Use JPEG, PNG, GIF o WebP".
Definition msg_upload_size : string := "Archivo demasiado grande. Máximo 5MB".
Definition msg_upload_failed : string := "Error al subir la imagen".

(** [image.content_type not in allowed_types] *)
Definition type_rejected (content_type : option string) : bool :=
  match content_type with
  | Some c => negb (bool_decide (c ∈ allowed_types))
  | None => true
  end.

(** [image.size and image.size > 5 * 1024 * 1024] *)
Definition size_rejected (size : option Z) : bool :=
  match size with
  | Some n => negb (n =? 0) && (max_upload_size <? n)
  | None => false
  end.

(** [POST /api/upload].  [written] tells whether opening the target file
    and copying the upload into it went through; a missing filename makes
    [split] raise inside the [try]. *)
Definition upload_image (uuid4 : string) (written : bool) (image : UploadFile.t)
  : response ImageUploadResponse :=
  if type_rejected (UploadFile.content_type image) then
    HTTPException 400 (Text msg_upload_type)
  else if size_rejected (UploadFile.size image) then
    HTTPException 400 (Text msg_upload_size)
  else
    match UploadFile.filename image with
    | None => HTTPException 500 (Text msg_upload_failed)
    | Some filename =>
      if written then
        Ok (mkImageUploadResponse
              (String.append "/static/images/" (unique_filename uuid4 filename))
              "Imagen subida exitosamente")
      else HTTPException 500 (Text msg_upload_failed)
    end.

(** ** Database URL *)

(** [s.startswith(prefix)] *)
Definition startswith (s prefix : string) : bool :=
  Str.prefix_chars (Str.chars prefix) (Str.chars s).

(** [s.replace(old, new, 1)]: the leftmost occurrence only. *)
Fixpoint replace_first_chars (old new l : list ascii) : list ascii :=
  if Str.prefix_chars old l then new ++ drop (length old) l
  else match l with
       | [] => []
       | c :: l' => c :: replace_first_chars old new l'
       end.

Definition replace_first (s old new : string) : string :=
  Str.of_chars (replace_first_chars (Str.chars old) (Str.chars new) (Str.chars s)).

(** The module-level [DATABASE_URL], from the environment variable of the
    same name. *)
Definition database_url (env : option string) : string :=
  let url := default "sqlite:///./recipes.db" env in
  if startswith url "postgres://"
  then replace_first url "postgres://" "postgresql://"
  else url.

(** ** Specification-side vocabulary *)

(** Case folding applied by the engine's LIKE to a whole string. *)
Definition fold_string (d : dialect) (s : string) : string :=
  match d with SQLite => Str.lower s | PostgreSQL => s end.

(** A query without LIKE metacharacters for the engine [d]. *)
Definition plain_char (d : dialect) (c : ascii) : bool :=
  negb (Ascii.eqb c Like.percent) && negb (Ascii.eqb c Like.underscore)
  && negb (Like.is_escape d c).

Definition plain_query (d : dialect) (q : string) : bool :=
  forallb (plain_char d) (Str.chars q).

(** The selected column holds a string that contains [q], up to the
    engine's case folding. *)
Definition column_contains (d : dialect) (column : option string) (q : string) : bool :=
  match column with
  | None => false
  | Some s => Str.substring (fold_string d q) (fold_string d s)
  end.

(** Prefix and infix tests up to the engine's case folding. *)
Fixpoint prefix_fold (d : dialect) (q s : list ascii) : bool :=
  match q, s with
  | [], _ => true
  | a :: q', b :: s' => Like.same_char d a b && prefix_fold d q' s'
  | _ :: _, [] => false
  end.

Fixpoint infix_fold (d : dialect) (q s : list ascii) : bool :=
  prefix_fold d q s
  || match s with [] => false | _ :: s' => infix_fold d q s' end.

(** The primary key is unique. *)
Definition primary_key (db : Session) : Prop := NoDup (Recipe.id <$> db).

(** The constraints declared by the schema: [primary_key=True] on [id]
    and [nullable=False] on [name], [ingredients] and [instructions]. *)
Definition schema (db : Session) : Prop :=
  primary_key db ∧ ∀ r, r ∈ db → not_null_violation r = None.

(** The table is in ascending primary-key order. *)
Definition rowid_order (db : Session) : Prop :=
  StronglySorted Z.lt (Recipe.id <$> db).

(** A table that the API can produce from the empty table. *)
Definition reachable (db : Session) : Prop :=
  ∃ reqs, db = serve_all reqs [].

(** The rules of a create input, as the specification words them: lengths
    after trimming, numbers positive when present. *)
Definition positive_if_present (v : option Z) : bool :=
  match v with Some n => 0 <? n | None => true end.

Definition valid_input (b : RecipeBase.t) : Prop :=
  3 ≤ Str.len (Str.strip (RecipeBase.name b))
  ∧ 10 ≤ Str.len (Str.strip (RecipeBase.ingredients b))
  ∧ 20 ≤ Str.len (Str.strip (RecipeBase.instructions b))
  ∧ positive_if_present (RecipeBase.prep_time b) = true
  ∧ positive_if_present (RecipeBase.cook_time b) = true
  ∧ positive_if_present (RecipeBase.servings b) = true.

(** The first rule of the specification's validation order that the input
    breaks, with the field it is about. *)
Definition spec_first_failing_rule (b : RecipeBase.t) : option error_entry :=
  if Str.len (Str.strip (RecipeBase.name b)) <? 3 then Some (f_name, msg_name)
  else if Str.len (Str.strip (RecipeBase.ingredients b)) <? 10
    then Some (f_ingredients, msg_ingredients)
  else if Str.len (Str.strip (RecipeBase.instructions b)) <? 20
    then Some (f_instructions, msg_instructions)
  else if negb (positive_if_present (RecipeBase.prep_time b))
    then Some (f_prep_time, msg_positive)
  else if negb (positive_if_present (RecipeBase.cook_time b))
    then Some (f_cook_time, msg_positive)
  else if negb (positive_if_present (RecipeBase.servings b))
    then Some (f_servings, msg_positive)
  else None.

(** The input with its three text fields trimmed. *)
Definition trimmed (b : RecipeBase.t) : RecipeBase.t :=
  RecipeBase.mk (Str.strip (RecipeBase.name b)) (RecipeBase.description b)
    (Str.strip (RecipeBase.ingredients b))
    (Str.strip (RecipeBase.instructions b))
    (RecipeBase.prep_time b) (RecipeBase.cook_time b) (RecipeBase.servings b)
    (RecipeBase.difficulty b) (RecipeBase.category b) (RecipeBase.tags b)
    (RecipeBase.image_url b).

(** The record made of an input, an id, two timestamps and the flag
    "false". *)
Definition record_of (i : Z) (created updated : datetime) (b : RecipeBase.t)
  : Recipe.t :=
  Recipe.mk i (Some (RecipeBase.name b)) (RecipeBase.description b)
    (Some (RecipeBase.ingredients b)) (Some (RecipeBase.instructions b))
    (RecipeBase.prep_time b) (RecipeBase.cook_time b) (RecipeBase.servings b)
    (RecipeBase.difficulty b) (RecipeBase.category b) (RecipeBase.tags b)
    (RecipeBase.image_url b) created updated "false".

(** Number of non-deleted records whose category is exactly [c]. *)
Definition count_in_category (db : Session) (c : string) : nat :=
  length (filter (fun r => Recipe.is_deleted r = "false"
                           ∧ Recipe.category r = Some c) db).


(** The flag column holds one of its two values. *)
Definition flags_ok (db : Session) : Prop :=
  ∀ r, r ∈ db → Recipe.is_deleted r = "false" ∨ Recipe.is_deleted r = "true".

(** The PATCH body sets a [nullable=False] column to null. *)
Definition nulls_required (u : RecipeUpdate.t) : bool :=
  match RecipeUpdate.name u, RecipeUpdate.ingredients u,
        RecipeUpdate.instructions u with
  | Some None, _, _ | _, Some None, _ | _, _, Some None => true
  | _, _, _ => false
  end.

(** The row of id [i] rewritten to [r'], every other row kept. *)
Definition rewrite_row (i : Z) (r' : Recipe.t) (db : Session) : Session :=
  (fun old => if decide (Recipe.id old = i) then r' else old) <$> db.

(** * Properties *)

(** ** Text *)

Lemma chars_of_chars l : Str.chars (Str.of_chars l) = l.
Proof. apply String.list_ascii_of_string_of_list_ascii. Qed.

Lemma truthy_of_len v : 0 < Str.len (Str.strip v) → Str.truthy v = true.
Proof. destruct v; [vm_compute; discriminate | reflexivity]. Qed.

(** ** LIKE on plain patterns *)

Section LikePlain.
Variable d : dialect.

Lemma matches_percent p s :
  Like.matches d (Like.percent :: p) s =
  Like.matches d p s
  || match s with [] => false | _ :: s' => Like.matches d (Like.percent :: p) s' end.
Proof. destruct s; reflexivity. Qed.

Lemma matches_plain c p s :
  plain_char d c = true →
  Like.matches d (c :: p) s =
  match s with
  | [] => false
  | b :: s' => Like.same_char d c b && Like.matches d p s'
  end.
Proof.
  unfold plain_char. intros H.
  apply andb_prop in H as [H He]. apply andb_prop in H as [Hp Hu].
  apply negb_true_iff in Hp, Hu, He.
  cbn [Like.matches]. rewrite Hp, Hu, He. reflexivity.
Qed.

Lemma matches_any s : Like.matches d [Like.percent] s = true.
Proof.
  induction s as [|b s IH]; [reflexivity|].
  rewrite matches_percent, IH. apply orb_true_r.
Qed.

Lemma matches_prefix q : ∀ s,
  forallb (plain_char d) q = true →
  Like.matches d (q ++ [Like.percent]) s = prefix_fold d q s.
Proof.
  induction q as [|c q IH]; intros s Hq.
  - rewrite matches_any. reflexivity.
  - cbn [forallb] in Hq. apply andb_prop in Hq as [Hc Hq].
    rewrite <- app_comm_cons, (matches_plain _ _ _ Hc).
    destruct s as [|b s]; [reflexivity|].
    cbn [prefix_fold]. rewrite IH by exact Hq. reflexivity.
Qed.

Lemma matches_infix q s :
  forallb (plain_char d) q = true →
  Like.matches d (Like.percent :: q ++ [Like.percent]) s = infix_fold d q s.
Proof.
  intros Hq. induction s as [|b s IH].
  - rewrite matches_percent, matches_prefix by exact Hq.
    destruct q; reflexivity.
  - rewrite matches_percent, matches_prefix, IH by exact Hq. reflexivity.
Qed.

Lemma prefix_fold_map q : ∀ s,
  prefix_fold d q s =
  Str.prefix_chars (map (Like.fold_case d) q) (map (Like.fold_case d) s).
Proof.
  induction q as [|a q IH]; intros [|b s]; cbn; try reflexivity.
  rewrite IH. reflexivity.
Qed.

Lemma infix_fold_map q s :
  infix_fold d q s =
  Str.infix_chars (map (Like.fold_case d) q) (map (Like.fold_case d) s).
Proof.
  induction s as [|b s IH]; cbn [infix_fold Str.infix_chars map].
  - rewrite prefix_fold_map. reflexivity.
  - rewrite prefix_fold_map, IH. reflexivity.
Qed.

Lemma chars_fold_string s :
  Str.chars (fold_string d s) = map (Like.fold_case d) (Str.chars s).
Proof.
  destruct d; cbn [fold_string Like.fold_case].
  - unfold Str.lower. apply chars_of_chars.
  - symmetry. apply map_id.
Qed.

(** On a plain query, [Column.contains] is containment up to the engine's
    case folding. *)
Lemma contains_plain column q :
  plain_query d q = true →
  Like.contains d column q = column_contains d column q.
Proof.
  intros Hq. destruct column as [s|]; [|reflexivity].
  unfold Like.contains, column_contains, Str.substring.
  rewrite (matches_infix _ _ Hq), infix_fold_map, !chars_fold_string.
  reflexivity.
Qed.

End LikePlain.

(** ** Attributes *)

Lemma getattr_setattr r f v : getattr (setattr r f v) f = v.
Proof. destruct r, f; reflexivity. Qed.

Lemma getattr_setattr_ne r f g v : f ≠ g → getattr (setattr r f v) g = getattr r g.
Proof. intros Hne. destruct r, f, g; first [reflexivity | congruence]. Qed.

Lemma setattr_fixed r f v :
  Recipe.id (setattr r f v) = Recipe.id r
  ∧ Recipe.created_at (setattr r f v) = Recipe.created_at r
  ∧ Recipe.updated_at (setattr r f v) = Recipe.updated_at r
  ∧ Recipe.is_deleted (setattr r f v) = Recipe.is_deleted r.
Proof. destruct r, f; repeat split. Qed.

(** Extensionality of rows over their attributes. *)
Lemma recipe_ext r1 r2 :
  Recipe.id r1 = Recipe.id r2 →
  Recipe.created_at r1 = Recipe.created_at r2 →
  Recipe.updated_at r1 = Recipe.updated_at r2 →
  Recipe.is_deleted r1 = Recipe.is_deleted r2 →
  (∀ f, getattr r1 f = getattr r2 f) →
  r1 = r2.
Proof.
  intros Hi Hc Hu Hd Hf. destruct r1, r2; cbn in *.
  pose proof (Hf f_name). pose proof (Hf f_description).
  pose proof (Hf f_ingredients). pose proof (Hf f_instructions).
  pose proof (Hf f_prep_time). pose proof (Hf f_cook_time).
  pose proof (Hf f_servings). pose proof (Hf f_difficulty).
  pose proof (Hf f_category). pose proof (Hf f_tags).
  pose proof (Hf f_image_url). cbn in *. congruence.
Qed.

Section Items.
Variable data : dict.

Local Abbreviation step := (setattr_item data).

Lemma step_fixed r f :
  Recipe.id (step r f) = Recipe.id r
  ∧ Recipe.created_at (step r f) = Recipe.created_at r
  ∧ Recipe.updated_at (step r f) = Recipe.updated_at r
  ∧ Recipe.is_deleted (step r f) = Recipe.is_deleted r.
Proof.
  unfold setattr_item. destruct (data f); [apply setattr_fixed | repeat split].
Qed.

Lemma foldl_step_fixed l : ∀ r,
  Recipe.id (foldl step r l) = Recipe.id r
  ∧ Recipe.created_at (foldl step r l) = Recipe.created_at r
  ∧ Recipe.updated_at (foldl step r l) = Recipe.updated_at r
  ∧ Recipe.is_deleted (foldl step r l) = Recipe.is_deleted r.
Proof.
  induction l as [|f l IH]; intros r; [repeat split|].
  cbn [foldl]. destruct (IH (step r f)) as (-> & -> & -> & ->).
  apply step_fixed.
Qed.

Lemma foldl_step_getattr l : ∀ r g,
  getattr (foldl step r l) g =
  if decide (g ∈ l) then default (getattr r g) (data g) else getattr r g.
Proof.
  induction l as [|f l IH]; intros r g.
  - cbn [foldl]. rewrite decide_False; [reflexivity | apply not_elem_of_nil].
  - cbn [foldl]. rewrite IH.
    assert (Hstep : getattr (step r f) g
                    = if decide (g = f) then default (getattr r g) (data g)
                      else getattr r g).
    { unfold setattr_item. case_decide as Hg.
      - subst g. destruct (data f); [apply getattr_setattr | reflexivity].
      - destruct (data f); [apply getattr_setattr_ne; congruence | reflexivity]. }
    destruct (decide (g ∈ l)) as [Hin|Hin].
    + rewrite decide_True by (right; exact Hin).
      destruct (data g); [reflexivity | cbn [default]].
      rewrite Hstep. destruct (decide (g = f)); reflexivity.
    + rewrite Hstep. destruct (decide (g = f)) as [->|Hne].
      * rewrite decide_True by left. reflexivity.
      * rewrite decide_False; [reflexivity|].
        intros Hin'. apply elem_of_cons in Hin' as [?|?]; contradiction.
Qed.

End Items.

Lemma elem_of_fields f : f ∈ fields.
Proof. unfold fields. destruct f; set_solver. Qed.

(** The loop over [data.items()] overwrites exactly the keys of [data]. *)
Lemma setattr_items_getattr data r f :
  getattr (setattr_items data r) f = default (getattr r f) (data f).
Proof.
  unfold setattr_items. rewrite foldl_step_getattr.
  rewrite decide_True by apply elem_of_fields. reflexivity.
Qed.

Lemma setattr_items_fixed data r :
  Recipe.id (setattr_items data r) = Recipe.id r
  ∧ Recipe.created_at (setattr_items data r) = Recipe.created_at r
  ∧ Recipe.updated_at (setattr_items data r) = Recipe.updated_at r
  ∧ Recipe.is_deleted (setattr_items data r) = Recipe.is_deleted r.
Proof. apply foldl_step_fixed. Qed.

(** ** Queries *)

Lemma get_recipe_by_id_Some db i r :
  get_recipe_by_id db i = Some r →
  r ∈ db ∧ Recipe.id r = i ∧ Recipe.is_deleted r = "false".
Proof.
  unfold get_recipe_by_id. intros H.
  apply head_Some_elem_of, list_elem_of_filter in H. tauto.
Qed.

Lemma get_recipe_by_id_None db i :
  get_recipe_by_id db i = None ↔
  ∀ r, r ∈ db → Recipe.id r = i → Recipe.is_deleted r ≠ "false".
Proof.
  unfold get_recipe_by_id. rewrite head_None. split.
  - intros Hnil r Hr Hi Hd.
    eapply (filter_nil_not_elem_of _ _ r Hnil); [split; assumption | exact Hr].
  - intros H. induction db as [|x db IH]; [reflexivity|].
    rewrite filter_cons_False.
    + apply IH. intros r Hr. apply H. right. exact Hr.
    + intros [Hi Hd]. exact (H x ltac:(left) Hi Hd).
Qed.

Lemma elem_of_ids (db : Session) (r : Recipe.t) : r ∈ db → Recipe.id r ∈ Recipe.id <$> db.
Proof. apply list_elem_of_fmap_2. Qed.

(** Under a unique primary key, a row is determined by its id. *)
Lemma primary_key_inj db r1 r2 :
  primary_key db → r1 ∈ db → r2 ∈ db → Recipe.id r1 = Recipe.id r2 → r1 = r2.
Proof.
  unfold primary_key. induction db as [|x db IH]; intros Hnd H1 H2 Heq.
  - inversion H1.
  - rewrite fmap_cons in Hnd. apply NoDup_cons in Hnd as [Hx Hnd].
    apply elem_of_cons in H1 as [->|H1], H2 as [->|H2].
    + reflexivity.
    + exfalso. apply Hx. rewrite Heq. apply elem_of_ids, H2.
    + exfalso. apply Hx. rewrite <- Heq. apply elem_of_ids, H1.
    + apply IH; assumption.
Qed.

Lemma get_recipe_by_id_elem db i r :
  primary_key db → r ∈ db → Recipe.id r = i → Recipe.is_deleted r = "false" →
  get_recipe_by_id db i = Some r.
Proof.
  intros Hpk Hr Hi Hd.
  destruct (get_recipe_by_id db i) as [r'|] eqn:Hget.
  - apply get_recipe_by_id_Some in Hget as (Hr' & Hi' & _).
    f_equal. apply (primary_key_inj db); [assumption.. | congruence].
  - exfalso. rewrite get_recipe_by_id_None in Hget. exact (Hget r Hr Hi Hd).
Qed.

(** ** Commit *)

Lemma id_lt_next_id db r : r ∈ db → Recipe.id r < next_id db.
Proof.
  unfold next_id. induction db as [|x db IH]; intros Hr; [inversion Hr|].
  rewrite fmap_cons. cbn [foldr].
  apply elem_of_cons in Hr as [->|Hr]; [lia|].
  specialize (IH Hr). lia.
Qed.

Lemma commit_update_ids r db db' :
  commit_update r db = inr db' → Recipe.id <$> db' = Recipe.id <$> db.
Proof.
  unfold commit_update. destruct (not_null_violation r); [discriminate|].
  intros [= <-]. rewrite <- list_fmap_compose. apply list_fmap_ext.
  intros _ old _. cbn. case_decide; congruence.
Qed.

(** A committed update touches the row with the updated id and no other. *)
Lemma commit_update_elem r db db' x :
  commit_update r db = inr db' →
  x ∈ db' ↔
  (x = r ∧ ∃ old, old ∈ db ∧ Recipe.id old = Recipe.id r)
  ∨ (x ∈ db ∧ Recipe.id x ≠ Recipe.id r).
Proof.
  unfold commit_update. destruct (not_null_violation r); [discriminate|].
  intros [= <-]. rewrite list_elem_of_fmap. split.
  - intros (old & -> & Hold). case_decide; eauto.
  - intros [(-> & old & Hold & Hid)|(Hx & Hne)].
    + exists old. rewrite decide_True by exact Hid. auto.
    + exists x. rewrite decide_False by exact Hne. auto.
Qed.

Lemma commit_update_other r db db' x :
  commit_update r db = inr db' → x ∈ db → Recipe.id x ≠ Recipe.id r → x ∈ db'.
Proof. intros H Hx Hne. apply (commit_update_elem _ _ _ _ H). right. auto. Qed.

Lemma set_updated_at_spec r now :
  Recipe.id (set_updated_at r now) = Recipe.id r
  ∧ Recipe.created_at (set_updated_at r now) = Recipe.created_at r
  ∧ Recipe.updated_at (set_updated_at r now) = now
  ∧ Recipe.is_deleted (set_updated_at r now) = Recipe.is_deleted r
  ∧ ∀ f, getattr (set_updated_at r now) f = getattr r f.
Proof. destruct r. repeat split. Qed.

Lemma set_is_deleted_spec r flag :
  Recipe.id (set_is_deleted r flag) = Recipe.id r
  ∧ Recipe.created_at (set_is_deleted r flag) = Recipe.created_at r
  ∧ Recipe.updated_at (set_is_deleted r flag) = Recipe.updated_at r
  ∧ Recipe.is_deleted (set_is_deleted r flag) = flag
  ∧ ∀ f, getattr (set_is_deleted r flag) f = getattr r f.
Proof. destruct r. repeat split. Qed.

(** ** The transition system *)

(** What a request can do to the table: nothing, append a row under a
    fresh primary key, or rewrite the row of a non-deleted record. *)
Lemma serve_cases req db :
  serve req db = db
  ∨ (∃ r, serve req db = db ++ [r] ∧ Recipe.id r = next_id db
          ∧ not_null_violation r = None)
  ∨ (∃ old r, get_recipe_by_id db (Recipe.id r) = Some old
              ∧ commit_update r db = inr (serve req db)).
Proof.
  destruct req as [| |nc nu body|now i body|now i body|now i| |]; cbn [serve];
    try (left; reflexivity).
  - unfold post_recipes. destruct (RecipeBase_validate body) as [es|b];
      [left; reflexivity|].
    unfold create_recipe, commit_insert.
    destruct (not_null_violation _) eqn:Hnn; [left; reflexivity|].
    right; left. eexists. split; [reflexivity|]. split; [|exact Hnn].
    apply (setattr_items_fixed (RecipeBase.dict b) (blank (next_id db) nc nu)).
  - unfold put_recipe. destruct (RecipeBase_validate body) as [es|b];
      [left; reflexivity|].
    unfold update_recipe.
    destruct (get_recipe_by_id db i) as [old|] eqn:Hget; [|left; reflexivity].
    destruct (commit_update _ db) as [e|db'] eqn:Hc; [left; reflexivity|].
    right; right. eexists old, _. split; [|exact Hc].
    destruct (set_updated_at_spec (setattr_items (RecipeBase.dict b) old) now)
      as (-> & _).
    destruct (setattr_items_fixed (RecipeBase.dict b) old) as (-> & _).
    apply get_recipe_by_id_Some in Hget as Hold.
    destruct Hold as (_ & -> & _). exact Hget.
  - unfold patch_recipe.
    destruct (get_recipe_by_id db i) as [old|] eqn:Hget; [|left; reflexivity].
    destruct (commit_update _ db) as [e|db'] eqn:Hc; [left; reflexivity|].
    right; right. eexists old, _. split; [|exact Hc].
    destruct (set_updated_at_spec
                (setattr_items (RecipeUpdate.dict_exclude_unset body) old) now)
      as (-> & _).
    destruct (setattr_items_fixed (RecipeUpdate.dict_exclude_unset body) old)
      as (-> & _).
    apply get_recipe_by_id_Some in Hget as Hold.
    destruct Hold as (_ & -> & _). exact Hget.
  - unfold delete_recipe.
    destruct (get_recipe_by_id db i) as [old|] eqn:Hget; [|left; reflexivity].
    destruct (commit_update _ db) as [e|db'] eqn:Hc; [left; reflexivity|].
    right; right. eexists old, _. split; [|exact Hc].
    destruct (set_updated_at_spec (set_is_deleted old "true") now) as (-> & _).
    destruct (set_is_deleted_spec old "true") as (-> & _).
    apply get_recipe_by_id_Some in Hget as Hold.
    destruct Hold as (_ & -> & _). exact Hget.
Qed.


Lemma serve_rowid_order req db : rowid_order db → rowid_order (serve req db).
Proof.
  unfold rowid_order. intros Hs.
  destruct (serve_cases req db) as [->|[(r & -> & Hid & _)|(old & r & _ & Hc)]].
  - exact Hs.
  - rewrite fmap_app. apply StronglySorted_app_2.
    + intros x1 x2 H1 H2. cbn in H2. apply list_elem_of_singleton in H2 as ->.
      apply list_elem_of_fmap in H1 as (r1 & -> & H1).
      rewrite Hid. apply id_lt_next_id, H1.
    + exact Hs.
    + repeat constructor.
  - rewrite (commit_update_ids _ _ _ Hc). exact Hs.
Qed.

Lemma serve_all_rowid_order reqs : ∀ db,
  rowid_order db → rowid_order (serve_all reqs db).
Proof.
  unfold serve_all. induction reqs as [|req reqs IH]; intros db H; [exact H|].
  cbn [foldl]. apply IH, serve_rowid_order, H.
Qed.

(** Every table the API can produce is in ascending primary-key order. *)
Lemma reachable_rowid_order db : reachable db → rowid_order db.
Proof.
  intros [reqs ->]. apply serve_all_rowid_order. constructor.
Qed.

Lemma serve_primary_key req db : primary_key db → primary_key (serve req db).
Proof.
  unfold primary_key. intros Hs.
  destruct (serve_cases req db) as [->|[(r & -> & Hid & _)|(old & r & _ & Hc)]].
  - exact Hs.
  - rewrite fmap_app. apply NoDup_app. split; [exact Hs|]. split.
    + intros x H1 H2. cbn in H2. apply list_elem_of_singleton in H2 as ->.
      apply list_elem_of_fmap in H1 as (r1 & Heq & H1).
      pose proof (id_lt_next_id db r1 H1). lia.
    + apply NoDup_singleton.
  - rewrite (commit_update_ids _ _ _ Hc). exact Hs.
Qed.

(** No request changes a deleted row. *)
Lemma serve_keeps_deleted req db x :
  primary_key db → x ∈ db → Recipe.is_deleted x = "true" → x ∈ serve req db.
Proof.
  intros Hpk Hx Hd.
  destruct (serve_cases req db) as [->|[(r & -> & _)|(old & r & Hget & Hc)]].
  - exact Hx.
  - apply elem_of_app. left. exact Hx.
  - apply (commit_update_other _ _ _ _ Hc Hx).
    apply get_recipe_by_id_Some in Hget as (Hold & Hid & Hfalse).
    intros Heq. assert (x = old) as ->.
    { apply (primary_key_inj db); [assumption.. | congruence]. }
    rewrite Hd in Hfalse. discriminate.
Qed.

Lemma commit_update_not_null r db db' :
  commit_update r db = inr db' → not_null_violation r = None.
Proof. unfold commit_update. destruct (not_null_violation r); [discriminate | reflexivity]. Qed.

Lemma serve_schema req db : schema db → schema (serve req db).
Proof.
  intros [Hpk Hnn]. split; [apply serve_primary_key, Hpk|].
  destruct (serve_cases req db) as [->|[(r & -> & _ & Hr)|(old & r & _ & Hc)]].
  - exact Hnn.
  - intros x Hx. apply elem_of_app in Hx as [Hx|Hx]; [auto|].
    apply list_elem_of_singleton in Hx as ->. exact Hr.
  - intros x Hx. apply (commit_update_elem _ _ _ _ Hc) in Hx as [[-> _]|[Hx _]].
    + apply (commit_update_not_null _ _ _ Hc).
    + auto.
Qed.

Lemma serve_all_schema reqs : ∀ db, schema db → schema (serve_all reqs db).
Proof.
  unfold serve_all. induction reqs as [|req reqs IH]; intros db H; [exact H|].
  cbn [foldl]. apply IH, serve_schema, H.
Qed.

(** Every table the API can produce satisfies the schema's constraints. *)
Lemma reachable_schema db : reachable db → schema db.
Proof.
  intros [reqs ->]. apply serve_all_schema. split; [constructor|].
  intros r Hr. inversion Hr.
Qed.

Lemma serve_all_keeps_deleted reqs : ∀ db x,
  schema db → x ∈ db → Recipe.is_deleted x = "true" → x ∈ serve_all reqs db.
Proof.
  unfold serve_all. induction reqs as [|req reqs IH]; intros db x Hs Hx Hd;
    [exact Hx|].
  cbn [foldl]. apply IH; [apply serve_schema, Hs | | exact Hd].
  apply serve_keeps_deleted; [apply Hs | exact Hx | exact Hd].
Qed.

(** A soft-deleted record is not found. *)
Lemma get_recipe_deleted db x :
  primary_key db → x ∈ db → Recipe.is_deleted x = "true" →
  get_recipe (Recipe.id x) db = not_found.
Proof.
  intros Hpk Hx Hd. unfold get_recipe.
  destruct (get_recipe_by_id db (Recipe.id x)) as [r|] eqn:Hget; [|reflexivity].
  apply get_recipe_by_id_Some in Hget as (Hr & Hid & Hfalse).
  assert (r = x) as -> by (apply (primary_key_inj db); assumption).
  rewrite Hd in Hfalse. discriminate.
Qed.

(** ** Reading *)



(** ** Soft delete *)

Lemma commit_update_ok r db :
  not_null_violation r = None →
  commit_update r db =
  inr ((fun old => if decide (Recipe.id old = Recipe.id r) then r else old) <$> db).
Proof. unfold commit_update. intros ->. reflexivity. Qed.

Lemma not_null_violation_flags r flag now :
  not_null_violation (set_updated_at (set_is_deleted r flag) now)
  = not_null_violation r.
Proof. destruct r. reflexivity. Qed.

Lemma not_null_violation_updated_at r now :
  not_null_violation (set_updated_at r now) = not_null_violation r.
Proof. destruct r. reflexivity. Qed.


Lemma schema_db1 : schema db1.
Proof.
  split.
  - apply (bool_decide_unpack _). vm_compute. exact I.
  - intros r Hr. vm_compute in Hr. apply list_elem_of_singleton in Hr as ->.
    reflexivity.
Defined.


(** ** Partial update *)

(** PATCH semantics of the handler: when the commit goes through, an
    attribute that is a key of the body takes the body's value and every
    other attribute keeps its own; id, [created_at] and the flag are kept
    and [updated_at] is the current time. *)
Lemma patch_recipe_overwrites now i body db old r db' :
  get_recipe_by_id db i = Some old →
  patch_recipe now i body db = (Ok r, db') →
  (∀ f, getattr r f
        = default (getattr old f) (RecipeUpdate.dict_exclude_unset body f))
  ∧ Recipe.id r = Recipe.id old
  ∧ Recipe.created_at r = Recipe.created_at old
  ∧ Recipe.is_deleted r = Recipe.is_deleted old
  ∧ Recipe.updated_at r = now.
Proof.
  intros Hget. unfold patch_recipe. rewrite Hget.
  destruct (commit_update _ db) as [e|db''] eqn:Hc; [discriminate|].
  intros [= <- <-].
  destruct (set_updated_at_spec
              (setattr_items (RecipeUpdate.dict_exclude_unset body) old) now)
    as (-> & -> & -> & -> & Hattr).
  destruct (setattr_items_fixed (RecipeUpdate.dict_exclude_unset body) old)
    as (-> & -> & _ & ->).
  split; [|repeat split].
  intros f. rewrite Hattr. apply setattr_items_getattr.
Qed.

Lemma setattr_items_empty r :
  setattr_items (RecipeUpdate.dict_exclude_unset RecipeUpdate.empty) r = r.
Proof. reflexivity. Qed.

(** C10.  A PATCH whose body sets no field succeeds on a non-deleted
    record, returns it, and changes nothing in the table but the record's
    [updated_at], which becomes the current time. *)
Theorem patch_without_fields (now i : Z) (db : Session) (r : Recipe.t) :
  schema db → r ∈ db → Recipe.id r = i → Recipe.is_deleted r = "false" →
  let r' := set_updated_at r now in
  let db' := (fun old => if decide (Recipe.id old = i) then r' else old) <$> db in
  patch_recipe now i RecipeUpdate.empty db = (Ok r', db')
  ∧ Recipe.updated_at r' = now
  ∧ Recipe.id r' = Recipe.id r
  ∧ Recipe.created_at r' = Recipe.created_at r
  ∧ Recipe.is_deleted r' = Recipe.is_deleted r
  ∧ (∀ f, getattr r' f = getattr r f)
  ∧ (∀ x, x ∈ db → Recipe.id x ≠ i → x ∈ db')
  ∧ length db' = length db
  ∧ get_recipe i db' = Ok r'.
Proof.
  intros [Hpk Hnn] Hr Hi Hd r' db'.
  destruct (set_updated_at_spec r now) as (Hid & Hca & Hua & Hdel & Hattr).
  assert (Hin : r' ∈ db').
  { unfold db'. apply list_elem_of_fmap. exists r.
    rewrite decide_True by exact Hi. auto. }
  assert (Hids : Recipe.id <$> db' = Recipe.id <$> db).
  { unfold db'. rewrite <- list_fmap_compose. apply list_fmap_ext.
    intros _ old _. cbn. case_decide; [unfold r'|]; congruence. }
  split; [|repeat split; try assumption].
  - unfold patch_recipe.
    rewrite (get_recipe_by_id_elem db i r Hpk Hr Hi Hd), setattr_items_empty.
    rewrite commit_update_ok
      by (rewrite not_null_violation_updated_at; apply Hnn, Hr).
    fold r'. replace (Recipe.id r') with i by (unfold r'; congruence).
    reflexivity.
  - intros x Hx Hne. unfold db'. apply list_elem_of_fmap. exists x.
    rewrite decide_False by exact Hne. auto.
  - unfold db'. apply length_fmap.
  - unfold get_recipe. rewrite (get_recipe_by_id_elem db' i r'); [reflexivity|..].
    + unfold primary_key. rewrite Hids. exact Hpk.
    + exact Hin.
    + unfold r'. congruence.
    + unfold r'. congruence.
Qed.

Lemma patch_without_fields_witness :
  schema db1
  ∧ fst (patch_recipe 2000 1 RecipeUpdate.empty db1)
    = Ok (set_updated_at (record_of 1 1000 1000 sample_recipe) 2000).
Proof.
  split; [exact schema_db1|].
  destruct (patch_without_fields 2000 1 db1 (record_of 1 1000 1000 sample_recipe)
              schema_db1) as (H & _);
    [vm_compute; left | reflexivity | reflexivity |].
  rewrite H. reflexivity.
Defined.

(** C1.  [RecipeUpdate] carries no validator: a PATCH that sets [name] to
    "AB" is committed, although the rule of [validate_name] rejects "AB" and
    the same name is refused with a 422 by PUT and by POST. *)
Theorem patch_recipe_skips_validation :
  validate_name "AB" = inl msg_name
  ∧ (∃ r db', patch_recipe 2000 1 patch_short_name db1 = (Ok r, db')
              ∧ Recipe.name r = Some "AB"
              ∧ get_recipe 1 db' = Ok r)
  ∧ put_recipe 2000 1 (sample_with "AB" (Some "almuerzo")) db1
    = (HTTPException 422 (Errors [(f_name, msg_name)]), db1)
  ∧ post_recipes 2000 2000 (sample_with "AB" (Some "almuerzo")) db1
    = (HTTPException 422 (Errors [(f_name, msg_name)]), db1).
Proof.
  split; [reflexivity|]. split; [|split; reflexivity].
  eexists _, _. split; [reflexivity|]. split; reflexivity.
Qed.

(** ** Restore *)

(** C3.  No request of the API restores a record: once a row carries the
    flag "true" it stays in the table unchanged whatever requests follow,
    and [get] keeps answering 404 for its id. *)
Theorem deleted_is_never_restored (reqs : list request) (db : Session)
  (x : Recipe.t) :
  schema db → x ∈ db → Recipe.is_deleted x = "true" →
  x ∈ serve_all reqs db
  ∧ get_recipe (Recipe.id x) (serve_all reqs db) = not_found.
Proof.
  intros Hs Hx Hd.
  assert (Hx' : x ∈ serve_all reqs db) by (apply serve_all_keeps_deleted; assumption).
  split; [exact Hx'|].
  apply get_recipe_deleted; [|exact Hx'|exact Hd].
  apply (serve_all_schema reqs db Hs).
Qed.

Lemma deleted_is_never_restored_witness :
  schema db1_deleted
  ∧ get_recipe 1 (serve_all [PATCH_recipe 3000 1 patch_short_name;
                             PUT_recipe 3100 1 sample_recipe;
                             DELETE_recipe 3200 1;
                             POST_recipes 3300 3300 sample_recipe] db1_deleted)
    = not_found.
Proof.
  assert (Hs : schema db1_deleted).
  { split.
    - apply (bool_decide_unpack _). vm_compute. exact I.
    - intros r Hr. vm_compute in Hr. apply list_elem_of_singleton in Hr as ->.
      reflexivity. }
  split; [exact Hs|].
  refine (proj2 (deleted_is_never_restored _ db1_deleted
           (set_updated_at (set_is_deleted (record_of 1 1000 1000 sample_recipe)
                                           "true") 2000) Hs _ _)).
  - vm_compute. left.
  - reflexivity.
Defined.

(** ** Create *)

Lemma validate_name_spec v :
  validate_name v
  = if Str.len (Str.strip v) <? 3 then inl msg_name else inr (Str.strip v).
Proof. destruct v; reflexivity. Qed.

Lemma validate_ingredients_spec v :
  validate_ingredients v
  = if Str.len (Str.strip v) <? 10 then inl msg_ingredients else inr (Str.strip v).
Proof. destruct v; reflexivity. Qed.

Lemma validate_instructions_spec v :
  validate_instructions v
  = if Str.len (Str.strip v) <? 20 then inl msg_instructions else inr (Str.strip v).
Proof. destruct v; reflexivity. Qed.

Lemma validate_positive_numbers_spec v :
  validate_positive_numbers v
  = if positive_if_present v then inr v else inl msg_positive.
Proof.
  destruct v as [n|]; [|reflexivity]. cbn.
  destruct (Z.leb_spec n 0), (Z.ltb_spec 0 n); first [reflexivity | lia].
Qed.

(** The validators against the specification's rule order. *)
Lemma RecipeBase_validate_spec body :
  match spec_first_failing_rule body with
  | Some e => ∃ es, RecipeBase_validate body = inl (e :: es)
  | None => RecipeBase_validate body = inr (trimmed body)
  end.
Proof.
  unfold RecipeBase_validate, spec_first_failing_rule, trimmed.
  rewrite validate_name_spec, validate_ingredients_spec,
    validate_instructions_spec, !validate_positive_numbers_spec.
  destruct (Str.len (Str.strip (RecipeBase.name body)) <? 3);
  destruct (Str.len (Str.strip (RecipeBase.ingredients body)) <? 10);
  destruct (Str.len (Str.strip (RecipeBase.instructions body)) <? 20);
  destruct (positive_if_present (RecipeBase.prep_time body));
  destruct (positive_if_present (RecipeBase.cook_time body));
  destruct (positive_if_present (RecipeBase.servings body));
  cbn; first [reflexivity | eexists; reflexivity].
Qed.

(** C8.  The body of a create request is checked in the order name,
    ingredients, instructions (lengths after trimming), prep_time,
    cook_time, servings (positive when present).  When a rule fails, the
    answer is a 422 whose first error names the field of the first failing
    rule with that rule's message, and the table is unchanged; when none
    fails, the validated body is the input with its text fields trimmed. *)
Theorem create_validation_order (now_created now_updated : Z)
  (body : RecipeBase.t) (db : Session) :
  match spec_first_failing_rule body with
  | Some e =>
    ∃ es, RecipeBase_validate body = inl (e :: es)
          ∧ post_recipes now_created now_updated body db
            = (HTTPException 422 (Errors (e :: es)), db)
  | None => RecipeBase_validate body = inr (trimmed body)
  end.
Proof.
  pose proof (RecipeBase_validate_spec body) as H.
  destruct (spec_first_failing_rule body) as [e|]; [|exact H].
  destruct H as [es H]. exists es. split; [exact H|].
  unfold post_recipes. rewrite H. reflexivity.
Qed.

Lemma valid_input_validate body :
  valid_input body → RecipeBase_validate body = inr (trimmed body).
Proof.
  intros (Hn & Hg & Hs & Hp & Hc & Hv).
  pose proof (RecipeBase_validate_spec body) as H.
  unfold spec_first_failing_rule in H.
  rewrite Hp, Hc, Hv in H. cbn [negb] in H.
  destruct (Z.ltb_spec (Str.len (Str.strip (RecipeBase.name body))) 3); [lia|].
  destruct (Z.ltb_spec (Str.len (Str.strip (RecipeBase.ingredients body))) 10);
    [lia|].
  destruct (Z.ltb_spec (Str.len (Str.strip (RecipeBase.instructions body))) 20);
    [lia|].
  exact H.
Qed.





(** ** Pagination *)





(** ** Statistics *)

Lemma count_category_lookup db m a c :
  count_category db m a !! c
  = if decide (a = Some c ∧ Str.truthy c = true)
    then Some (length (filter (fun r => Recipe.category r = Some c
                                        ∧ Recipe.is_deleted r = "false") db))
    else m !! c.
Proof.
  unfold count_category. destruct a as [c'|].
  - destruct (Str.truthy c') eqn:Ht.
    + destruct (decide (c' = c)) as [->|Hne].
      * rewrite lookup_insert_eq, decide_True by auto. reflexivity.
      * rewrite lookup_insert_ne by exact Hne.
        rewrite decide_False; [reflexivity|]. intros [[= ?] _]. contradiction.
    + rewrite decide_False; [reflexivity|]. intros [[= ->] Hc]. congruence.
  - rewrite decide_False; [reflexivity|]. intros [[=] _].
Qed.

Lemma foldl_count_category db l : ∀ m c,
  foldl (count_category db) m l !! c
  = if decide (Some c ∈ l ∧ Str.truthy c = true)
    then Some (length (filter (fun r => Recipe.category r = Some c
                                        ∧ Recipe.is_deleted r = "false") db))
    else m !! c.
Proof.
  induction l as [|a l IH]; intros m c.
  - cbn [foldl]. rewrite decide_False; [reflexivity|].
    intros [H _]. inversion H.
  - cbn [foldl]. rewrite IH, count_category_lookup.
    destruct (decide (Some c ∈ l ∧ Str.truthy c = true)) as [[Hin Ht]|Hnot].
    + rewrite decide_True; [reflexivity|]. split; [right; exact Hin | exact Ht].
    + destruct (decide (a = Some c ∧ Str.truthy c = true)) as [[-> Ht]|Hnot'].
      * rewrite decide_True; [reflexivity|]. split; [left | exact Ht].
      * rewrite decide_False; [reflexivity|]. intros [Hin Ht].
        apply elem_of_cons in Hin as [Heq|Hin]; [apply Hnot' | apply Hnot]; auto.
Qed.

Lemma truthy_nonempty c : Str.truthy c = true ↔ c ≠ "".
Proof. destruct c; cbn; split; congruence. Qed.

Lemma count_in_category_alt db c :
  length (filter (fun r => Recipe.category r = Some c
                           ∧ Recipe.is_deleted r = "false") db)
  = count_in_category db c.
Proof.
  unfold count_in_category. f_equal. apply list_filter_iff. intros r. tauto.
Qed.

(** The entries of the [categories] dictionary. *)
Lemma get_stats_categories now db c n :
  categories (get_stats now db) !! c = Some n ↔
  c ≠ ""
  ∧ (∃ r, r ∈ db ∧ Recipe.is_deleted r = "false" ∧ Recipe.category r = Some c)
  ∧ n = count_in_category db c.
Proof.
  cbn [get_stats categories].
  rewrite foldl_count_category, lookup_empty, count_in_category_alt.
  assert (Hin : Some c ∈ distinct_categories db ↔
                ∃ r, r ∈ db ∧ Recipe.is_deleted r = "false"
                     ∧ Recipe.category r = Some c).
  { unfold distinct_categories. rewrite elem_of_remove_dups, list_elem_of_fmap.
    split.
    - intros (r & Hc & Hr). apply list_elem_of_filter in Hr as [Hd Hr]. eauto.
    - intros (r & Hr & Hd & Hc). exists r. split; [auto|].
      apply list_elem_of_filter. auto. }
  split.
  - destruct (decide _) as [[Hc Ht]|_]; [|discriminate].
    intros [= <-]. split; [apply truthy_nonempty, Ht|].
    split; [apply Hin, Hc | reflexivity].
  - intros (Hne & Hr & ->).
    rewrite decide_True; [reflexivity|].
    split; [apply Hin, Hr | apply truthy_nonempty, Hne].
Qed.

(** C9.  [total_recipes] counts the non-deleted records, [total_deleted]
    the deleted ones, and [categories] has an entry for a string exactly
    when that string is not empty and is the category of some non-deleted
    record; the entry is the number of non-deleted records whose category
    is equal to it. *)
Theorem stats_counts (now : Z) (db : Session) :
  let s := get_stats now db in
  total_recipes s = length (filter (fun r => Recipe.is_deleted r = "false") db)
  ∧ total_deleted s = length (filter (fun r => Recipe.is_deleted r = "true") db)
  ∧ ∀ c n, categories s !! c = Some n ↔
           c ≠ ""
           ∧ (∃ r, r ∈ db ∧ Recipe.is_deleted r = "false"
                   ∧ Recipe.category r = Some c)
           ∧ n = count_in_category db c.
Proof.
  cbn zeta. split; [reflexivity|]. split; [reflexivity|].
  intros c n. apply get_stats_categories.
Qed.

(** The scenario of the specification: three recipes in the categories
    almuerzo, almuerzo and cena, one almuerzo soft-deleted. *)
Example stats_scenario :
  total_recipes (get_stats 5 db_stats) = 2%nat
  ∧ total_deleted (get_stats 5 db_stats) = 1%nat
  ∧ categories (get_stats 5 db_stats) = {[ "almuerzo" := 1%nat; "cena" := 1%nat ]}.
Proof.
  split; [reflexivity|]. split; [reflexivity|].
  apply map_eq. intros c.
  destruct (decide (c = "almuerzo")) as [->|H1]; [reflexivity|].
  destruct (decide (c = "cena")) as [->|H2]; [reflexivity|].
  rewrite lookup_insert_ne, lookup_singleton_ne by congruence.
  destruct (categories (get_stats 5 db_stats) !! c) as [n|] eqn:E; [|reflexivity].
  apply get_stats_categories in E as (_ & (r & Hr & _ & Hc) & _).
  vm_compute in Hr.
  repeat (apply elem_of_cons in Hr as [->|Hr]; [cbn in Hc; congruence|]).
  inversion Hr.
Qed.

(** C9, as the specification words it, fails on the empty category: it is
    a non-null category of a non-deleted record, borne by one record, and
    [categories] has no entry for it. *)
Lemma stats_counts_counterexample :
  (∃ r, r ∈ db_empty_category ∧ Recipe.is_deleted r = "false"
        ∧ Recipe.category r = Some "")
  ∧ count_in_category db_empty_category "" = 1%nat
  ∧ categories (get_stats 5 db_empty_category) !! "" = None.
Proof.
  split; [|split; reflexivity].
  eexists. split; [vm_compute; left|]. split; reflexivity.
Qed.

(** ** Search *)

Lemma filter_contains_plain d (column : Recipe.t → option string)
  (db : Session) q :
  plain_query d q = true →
  filter (fun r => Like.contains d (column r) q = true
                   ∧ Recipe.is_deleted r = "false") db
  = filter (fun r => Recipe.is_deleted r = "false"
                     ∧ column_contains d (column r) q = true) db.
Proof.
  intros Hq. apply list_filter_iff. intros r.
  rewrite (contains_plain d (column r) q Hq). tauto.
Qed.

(** C2.  For a non-empty query without LIKE metacharacters ([%], [_] and,
    on PostgreSQL, the backslash), search by name, ingredient or category
    returns exactly the non-deleted records whose selected column is not
    NULL and contains the query, case-sensitively on PostgreSQL and up to
    the case of ASCII letters on SQLite.  For the record named
    "Pasta Carbonara", "Carbonara" finds it on both engines; "carbonara"
    finds nothing on PostgreSQL and finds the record on SQLite. *)
Theorem search_plain_query (d : dialect) (db : Session) (q : string) :
  q ≠ "" → plain_query d q = true →
  search_recipes d q "name" db
  = Ok (filter (fun r => Recipe.is_deleted r = "false"
                         ∧ column_contains d (Recipe.name r) q = true) db)
  ∧ search_recipes d q "ingredient" db
    = Ok (filter (fun r => Recipe.is_deleted r = "false"
                           ∧ column_contains d (Recipe.ingredients r) q = true) db)
  ∧ search_recipes d q "category" db
    = Ok (filter (fun r => Recipe.is_deleted r = "false"
                           ∧ column_contains d (Recipe.category r) q = true) db)
  ∧ search_recipes d "Carbonara" "name" db1 = Ok db1
  ∧ search_recipes PostgreSQL "carbonara" "name" db1 = Ok []
  ∧ search_recipes SQLite "carbonara" "name" db1 = Ok db1.
Proof.
  intros Hne Hq. apply truthy_nonempty in Hne.
  unfold search_recipes. rewrite Hne. cbn [negb String.eqb Ascii.eqb].
  unfold search_recipes_by_name, search_recipes_by_ingredient,
    search_recipes_by_category.
  rewrite !(filter_contains_plain d _ db q Hq).
  repeat split. destruct d; reflexivity.
Qed.

Lemma search_plain_query_witness :
  "Pasta" ≠ "" ∧ plain_query PostgreSQL "Pasta" = true
  ∧ search_recipes PostgreSQL "Pasta" "name" db1 = Ok db1.
Proof.
  assert (H : "Pasta" ≠ "") by discriminate.
  split; [exact H|]. split; [reflexivity|].
  rewrite (proj1 (search_plain_query PostgreSQL db1 "Pasta" H eq_refl)).
  reflexivity.
Defined.

(** C2, as the specification words it, fails on the default engine:
    SQLite's LIKE ignores the case of ASCII letters, so "carbonara" finds
    "Pasta Carbonara" although the name does not contain it; and on either
    engine [_] in the query is a wildcard. *)
Lemma search_case_counterexample :
  search_recipes SQLite "carbonara" "name" db1 = Ok db1
  ∧ db1 = [record_of 1 1000 1000 sample_recipe]
  ∧ Str.substring "carbonara" "Pasta Carbonara" = false
  ∧ search_recipes PostgreSQL "P_sta" "name" db1 = Ok db1
  ∧ Str.substring "P_sta" "Pasta Carbonara" = false.
Proof. repeat split. Qed.

(** * Further properties of the handlers *)

(** ** Trimming *)

Lemma lstrip_chars_head l :
  match Str.lstrip_chars l with
  | [] => True
  | c :: _ => Str.isspace c = false
  end.
Proof.
  induction l as [|c l IH]; [exact I|]. cbn [Str.lstrip_chars].
  destruct (Str.isspace c) eqn:E; [exact IH | exact E].
Qed.

Lemma lstrip_chars_split l :
  ∃ pre, l = pre ++ Str.lstrip_chars l ∧ forallb Str.isspace pre = true.
Proof.
  induction l as [|c l (pre & Hl & Hpre)]; [exists []; auto|].
  cbn [Str.lstrip_chars]. destruct (Str.isspace c) eqn:E.
  - exists (c :: pre). cbn. rewrite E, Hpre. split; [congruence | reflexivity].
  - exists []. auto.
Qed.

Lemma lstrip_chars_snoc l c :
  Str.isspace c = false →
  Str.lstrip_chars (l ++ [c]) = Str.lstrip_chars l ++ [c].
Proof.
  intros Hc. induction l as [|a l IH]; cbn [app Str.lstrip_chars].
  - rewrite Hc. reflexivity.
  - destruct (Str.isspace a); [exact IH | reflexivity].
Qed.

Lemma lstrip_chars_fixed c l :
  Str.isspace c = false → Str.lstrip_chars (c :: l) = c :: l.
Proof. intros Hc. cbn. rewrite Hc. reflexivity. Qed.

Lemma lstrip_chars_idem l :
  Str.lstrip_chars (Str.lstrip_chars l) = Str.lstrip_chars l.
Proof.
  pose proof (lstrip_chars_head l) as H.
  destruct (Str.lstrip_chars l) as [|c m]; [reflexivity|].
  apply lstrip_chars_fixed, H.
Qed.

Lemma rstrip_chars_cons c l :
  Str.isspace c = false → Str.rstrip_chars (c :: l) = c :: Str.rstrip_chars l.
Proof.
  intros Hc. unfold Str.rstrip_chars. cbn [rev].
  rewrite (lstrip_chars_snoc _ _ Hc), rev_app_distr. reflexivity.
Qed.

Lemma rstrip_chars_idem l :
  Str.rstrip_chars (Str.rstrip_chars l) = Str.rstrip_chars l.
Proof.
  unfold Str.rstrip_chars. rewrite rev_involutive, lstrip_chars_idem.
  reflexivity.
Qed.

Lemma strip_chars_idem l :
  let m := Str.rstrip_chars (Str.lstrip_chars l) in
  Str.rstrip_chars (Str.lstrip_chars m) = m.
Proof.
  cbn zeta. pose proof (lstrip_chars_head l) as H.
  destruct (Str.lstrip_chars l) as [|c m]; [reflexivity|].
  rewrite (rstrip_chars_cons _ _ H), (lstrip_chars_fixed _ _ H).
  rewrite (rstrip_chars_cons _ _ H), rstrip_chars_idem. reflexivity.
Qed.

Lemma strip_idem v : Str.strip (Str.strip v) = Str.strip v.
Proof.
  unfold Str.strip. rewrite chars_of_chars.
  f_equal. apply strip_chars_idem.
Qed.

(** X1.  [strip] removes a run of whitespace at each end and nothing else:
    the string is blanks, then the stripped string, then blanks, and the
    stripped string neither starts nor ends with a blank. *)
Theorem strip_spec (v : string) :
  ∃ pre post,
    Str.chars v = pre ++ Str.chars (Str.strip v) ++ post
    ∧ forallb Str.isspace pre = true
    ∧ forallb Str.isspace post = true
    ∧ (∀ c, head (Str.chars (Str.strip v)) = Some c → Str.isspace c = false)
    ∧ (∀ c, last (Str.chars (Str.strip v)) = Some c → Str.isspace c = false).
Proof.
  unfold Str.strip. rewrite chars_of_chars.
  destruct (lstrip_chars_split (Str.chars v)) as (pre & Hv & Hpre).
  set (m := Str.lstrip_chars (Str.chars v)) in *.
  destruct (lstrip_chars_split (rev m)) as (tail & Hm & Htail).
  exists pre, (rev tail). split; [|split; [exact Hpre|split; [|split]]].
  - rewrite Hv at 1. f_equal. unfold Str.rstrip_chars.
    rewrite <- rev_app_distr, <- Hm, rev_involutive. reflexivity.
  - rewrite forallb_forall in Htail |- *. intros c Hc.
    apply Htail, in_rev. exact Hc.
  - intros c Hc. pose proof (lstrip_chars_head (Str.chars v)) as Hh.
    fold m in Hh. destruct m as [|a m']; [discriminate Hc|].
    rewrite (rstrip_chars_cons _ _ Hh) in Hc. cbn in Hc. congruence.
  - intros c Hc. unfold Str.rstrip_chars in Hc.
    pose proof (lstrip_chars_head (rev m)) as Hh.
    destruct (Str.lstrip_chars (rev m)) as [|a t]; [discriminate Hc|].
    cbn [rev] in Hc. rewrite last_snoc in Hc. congruence.
Qed.

(** ** Validation *)

Lemma spec_first_failing_rule_None body :
  spec_first_failing_rule body = None ↔ valid_input body.
Proof.
  unfold spec_first_failing_rule, valid_input.
  destruct (Z.ltb_spec (Str.len (Str.strip (RecipeBase.name body))) 3);
    [split; [discriminate | lia]|].
  destruct (Z.ltb_spec (Str.len (Str.strip (RecipeBase.ingredients body))) 10);
    [split; [discriminate | lia]|].
  destruct (Z.ltb_spec (Str.len (Str.strip (RecipeBase.instructions body))) 20);
    [split; [discriminate | lia]|].
  destruct (positive_if_present (RecipeBase.prep_time body));
    [|split; [discriminate | intros (_ & _ & _ & [=] & _)]].
  destruct (positive_if_present (RecipeBase.cook_time body));
    [|split; [discriminate | intros (_ & _ & _ & _ & [=] & _)]].
  destruct (positive_if_present (RecipeBase.servings body));
    [|split; [discriminate | intros (_ & _ & _ & _ & _ & [=])]].
  cbn. tauto.
Qed.

Lemma validate_inr body b :
  RecipeBase_validate body = inr b → valid_input body ∧ b = trimmed body.
Proof.
  intros H. pose proof (RecipeBase_validate_spec body) as Hs.
  destruct (spec_first_failing_rule body) as [e|] eqn:E.
  - destruct Hs as [es Hs]. congruence.
  - split; [apply spec_first_failing_rule_None, E | congruence].
Qed.

Lemma trimmed_idem body : trimmed (trimmed body) = trimmed body.
Proof. unfold trimmed. cbn -[Str.strip]. rewrite !strip_idem. reflexivity. Qed.

Lemma valid_input_trimmed body : valid_input body → valid_input (trimmed body).
Proof.
  unfold valid_input, trimmed. cbn -[Str.strip Str.len Z.le].
  rewrite !strip_idem. tauto.
Qed.

(** X2.  Validation is idempotent: a body that came out of the validators
    is accepted by them unchanged (what is read back can be sent again). *)
Theorem validate_idempotent (body b : RecipeBase.t) :
  RecipeBase_validate body = inr b → RecipeBase_validate b = inr b.
Proof.
  intros H. apply validate_inr in H as [Hv ->].
  rewrite (valid_input_validate _ (valid_input_trimmed _ Hv)).
  rewrite trimmed_idem. reflexivity.
Qed.

Lemma validate_idempotent_witness :
  RecipeBase_validate padded_recipe = inr (trimmed padded_recipe)
  ∧ RecipeBase_validate (trimmed padded_recipe) = inr (trimmed padded_recipe).
Proof.
  assert (H : RecipeBase_validate padded_recipe = inr (trimmed padded_recipe))
    by reflexivity.
  split; [exact H|]. exact (validate_idempotent _ _ H).
Defined.


(** ** Updates *)

Lemma rewrite_row_ids i r' (db : Session) :
  Recipe.id r' = i → Recipe.id <$> rewrite_row i r' db = Recipe.id <$> db.
Proof.
  intros Hi. unfold rewrite_row. rewrite <- list_fmap_compose.
  apply list_fmap_ext. intros _ old _. cbn. case_decide; congruence.
Qed.

Lemma commit_update_rewrite_row r db :
  not_null_violation r = None →
  commit_update r db = inr (rewrite_row (Recipe.id r) r db).
Proof. apply commit_update_ok. Qed.




Lemma patched_columns body old now :
  let r := set_updated_at
             (setattr_items (RecipeUpdate.dict_exclude_unset body) old) now in
  Recipe.name r = default (Recipe.name old) (RecipeUpdate.name body)
  ∧ Recipe.ingredients r
    = default (Recipe.ingredients old) (RecipeUpdate.ingredients body)
  ∧ Recipe.instructions r
    = default (Recipe.instructions old) (RecipeUpdate.instructions body).
Proof.
  cbn zeta.
  destruct (set_updated_at_spec
              (setattr_items (RecipeUpdate.dict_exclude_unset body) old) now)
    as (_ & _ & _ & _ & Hattr).
  pose proof (Hattr f_name) as H1. pose proof (Hattr f_ingredients) as H2.
  pose proof (Hattr f_instructions) as H3.
  rewrite setattr_items_getattr in H1, H2, H3. auto.
Qed.


Lemma patched_null body old now :
  nulls_required body = true →
  ∃ c, not_null_violation
         (set_updated_at
            (setattr_items (RecipeUpdate.dict_exclude_unset body) old) now)
       = Some c.
Proof.
  intros Hn. destruct (patched_columns body old now) as (H1 & H2 & H3).
  unfold not_null_violation. rewrite H1, H2, H3.
  unfold nulls_required in Hn.
  destruct (RecipeUpdate.name body) as [[?|]|],
           (RecipeUpdate.ingredients body) as [[?|]|],
           (RecipeUpdate.instructions body) as [[?|]|];
    try discriminate Hn; cbn [default];
    destruct (Recipe.name old), (Recipe.ingredients old),
             (Recipe.instructions old); eauto.
Qed.



(** X6.  A partial update that sets [name], [ingredients] or
    [instructions] to null is refused by the NOT NULL constraint at commit:
    the answer is a 400 carrying the database error, and the table is
    unchanged. *)
Theorem patch_null_required_is_refused (now i : Z) (body : RecipeUpdate.t)
  (db : Session) (old : Recipe.t) :
  primary_key db → old ∈ db → Recipe.id old = i →
  Recipe.is_deleted old = "false" →
  nulls_required body = true →
  ∃ column, patch_recipe now i body db
            = (HTTPException 400 (ExcStr (IntegrityError column)), db).
Proof.
  intros Hpk Hold Hi Hd Hbody.
  destruct (patched_null body old now Hbody) as [c Hc].
  exists c. unfold patch_recipe, commit_update.
  rewrite (get_recipe_by_id_elem db i old Hpk Hold Hi Hd), Hc. reflexivity.
Qed.

Lemma patch_null_required_is_refused_witness :
  primary_key db1
  ∧ ∃ column,
      patch_recipe 2000 1
        (RecipeUpdate.mk (Some None) None None None None None None None None
                         None None) db1
      = (HTTPException 400 (ExcStr (IntegrityError column)), db1).
Proof.
  split; [exact (proj1 schema_db1)|].
  apply (patch_null_required_is_refused 2000 1 _ db1
           (record_of 1 1000 1000 sample_recipe) (proj1 schema_db1));
    [vm_compute; left | reflexivity | reflexivity | reflexivity].
Defined.

(** X7.  The three writing handlers answer 404 exactly when [get] does,
    for the same id and table, and a 404 changes nothing. *)
Theorem writes_not_found_as_get (now i : Z) (u : RecipeUpdate.t)
  (b : RecipeBase.t) (db : Session) :
  (get_recipe i db = not_found ↔ patch_recipe now i u db = (not_found, db))
  ∧ (get_recipe i db = not_found ↔ update_recipe now i b db = (not_found, db))
  ∧ (get_recipe i db = not_found ↔ delete_recipe now i db = (not_found, db)).
Proof.
  unfold get_recipe, patch_recipe, update_recipe, delete_recipe.
  destruct (get_recipe_by_id db i) as [old|].
  - repeat split; try discriminate;
      destruct (commit_update _ db); discriminate.
  - repeat split; reflexivity.
Qed.


(** ** Invariants of the table *)

Lemma commit_update_inr r db db' :
  commit_update r db = inr db' → db' = rewrite_row (Recipe.id r) r db.
Proof.
  unfold commit_update. destruct (not_null_violation r); [discriminate|].
  intros [= <-]. reflexivity.
Qed.

(** What a request does to the rows: nothing, one new non-deleted row under
    a fresh id, or one non-deleted row rewritten with its [created_at]
    kept. *)
Lemma serve_rows req db :
  serve req db = db
  ∨ (∃ r, serve req db = db ++ [r] ∧ Recipe.id r = next_id db
          ∧ Recipe.is_deleted r = "false")
  ∨ (∃ old r, get_recipe_by_id db (Recipe.id r) = Some old
              ∧ serve req db = rewrite_row (Recipe.id r) r db
              ∧ Recipe.created_at r = Recipe.created_at old
              ∧ (Recipe.is_deleted r = "false" ∨ Recipe.is_deleted r = "true")).
Proof.
  destruct req as [| |nc nu body|now i body|now i body|now i| |]; cbn [serve];
    try (left; reflexivity).
  - unfold post_recipes. destruct (RecipeBase_validate body) as [es|b];
      [left; reflexivity|].
    unfold create_recipe, commit_insert.
    destruct (not_null_violation _); [left; reflexivity|].
    right; left. eexists. split; [reflexivity|].
    destruct (setattr_items_fixed (RecipeBase.dict b)
                (blank (next_id db) nc nu)) as (-> & _ & _ & ->).
    split; reflexivity.
  - unfold put_recipe. destruct (RecipeBase_validate body) as [es|b];
      [left; reflexivity|].
    unfold update_recipe.
    destruct (get_recipe_by_id db i) as [old|] eqn:Hget; [|left; reflexivity].
    destruct (commit_update _ db) as [e|db'] eqn:Hc; [left; reflexivity|].
    right; right. eexists old, _.
    destruct (set_updated_at_spec (setattr_items (RecipeBase.dict b) old) now)
      as (Hi & Hca & _ & Hd & _).
    destruct (setattr_items_fixed (RecipeBase.dict b) old)
      as (Hi' & Hca' & _ & Hd').
    apply get_recipe_by_id_Some in Hget as Hold. destruct Hold as (_ & Ho & Hf).
    rewrite Hi, Hi', Hca, Hca', Hd, Hd', Ho.
    split; [exact Hget|]. split; [|auto].
    apply commit_update_inr in Hc. cbn [snd]. rewrite Hc, Hi, Hi', Ho.
    reflexivity.
  - unfold patch_recipe.
    destruct (get_recipe_by_id db i) as [old|] eqn:Hget; [|left; reflexivity].
    destruct (commit_update _ db) as [e|db'] eqn:Hc; [left; reflexivity|].
    right; right. eexists old, _.
    destruct (set_updated_at_spec
                (setattr_items (RecipeUpdate.dict_exclude_unset body) old) now)
      as (Hi & Hca & _ & Hd & _).
    destruct (setattr_items_fixed (RecipeUpdate.dict_exclude_unset body) old)
      as (Hi' & Hca' & _ & Hd').
    apply get_recipe_by_id_Some in Hget as Hold. destruct Hold as (_ & Ho & Hf).
    rewrite Hi, Hi', Hca, Hca', Hd, Hd', Ho.
    split; [exact Hget|]. split; [|auto].
    apply commit_update_inr in Hc. cbn [snd]. rewrite Hc, Hi, Hi', Ho.
    reflexivity.
  - unfold delete_recipe.
    destruct (get_recipe_by_id db i) as [old|] eqn:Hget; [|left; reflexivity].
    destruct (commit_update _ db) as [e|db'] eqn:Hc; [left; reflexivity|].
    right; right. eexists old, _.
    destruct (set_updated_at_spec (set_is_deleted old "true") now)
      as (Hi & Hca & _ & Hd & _).
    destruct (set_is_deleted_spec old "true") as (Hi' & Hca' & _ & Hd' & _).
    apply get_recipe_by_id_Some in Hget as Hold. destruct Hold as (_ & Ho & Hf).
    rewrite Hi, Hi', Hca, Hca', Hd, Hd', Ho.
    split; [exact Hget|]. split; [|auto].
    apply commit_update_inr in Hc. cbn [snd]. rewrite Hc, Hi, Hi', Ho.
    reflexivity.
Qed.

Lemma serve_flags_ok req db : flags_ok db → flags_ok (serve req db).
Proof.
  unfold flags_ok. intros Hf.
  destruct (serve_rows req db)
    as [->|[(r & -> & _ & Hd)|(old & r & _ & -> & _ & Hd)]].
  - exact Hf.
  - intros x Hx. apply elem_of_app in Hx as [Hx|Hx]; [auto|].
    apply list_elem_of_singleton in Hx as ->. auto.
  - intros x Hx. unfold rewrite_row in Hx.
    apply list_elem_of_fmap in Hx as (y & -> & Hy). case_decide; auto.
Qed.

Lemma serve_all_flags_ok reqs : ∀ db, flags_ok db → flags_ok (serve_all reqs db).
Proof.
  unfold serve_all. induction reqs as [|req reqs IH]; intros db H; [exact H|].
  cbn [foldl]. apply IH, serve_flags_ok, H.
Qed.

(** X9.  Every table that the API produces from the empty one has unique
    ids in ascending order, non-null [name], [ingredients] and
    [instructions], and a flag that is "false" or "true" in every row. *)
Theorem reachable_invariants (db : Session) :
  reachable db → schema db ∧ rowid_order db ∧ flags_ok db.
Proof.
  intros H. split; [apply reachable_schema, H|].
  split; [apply reachable_rowid_order, H|].
  destruct H as [reqs ->]. apply serve_all_flags_ok.
  intros r Hr. inversion Hr.
Qed.

Lemma reachable_invariants_witness :
  reachable db_stats ∧ rowid_order db_stats.
Proof.
  assert (H : reachable db_stats) by (eexists; reflexivity).
  split; [exact H|]. exact (proj1 (proj2 (reachable_invariants db_stats H))).
Defined.

Lemma serve_keeps_rows req db x :
  primary_key db → x ∈ db →
  ∃ x', x' ∈ serve req db ∧ Recipe.id x' = Recipe.id x
        ∧ Recipe.created_at x' = Recipe.created_at x.
Proof.
  intros Hpk Hx.
  destruct (serve_rows req db)
    as [->|[(r & -> & _)|(old & r & Hget & -> & Hca & _)]].
  - exists x. auto.
  - exists x. split; [apply elem_of_app; auto | auto].
  - apply get_recipe_by_id_Some in Hget as (Hold & Hid & _).
    destruct (decide (Recipe.id x = Recipe.id r)) as [Heq|Hne].
    + assert (x = old) as -> by (apply (primary_key_inj db); [done..|congruence]).
      exists r. split; [|auto]. unfold rewrite_row.
      apply list_elem_of_fmap. exists old. rewrite decide_True by exact Heq. auto.
    + exists x. split; [|auto]. unfold rewrite_row.
      apply list_elem_of_fmap. exists x. rewrite decide_False by exact Hne. auto.
Qed.

Lemma serve_ids_prefix req db :
  (Recipe.id <$> db) `prefix_of` (Recipe.id <$> serve req db).
Proof.
  destruct (serve_rows req db)
    as [->|[(r & -> & _)|(old & r & _ & -> & _)]].
  - reflexivity.
  - rewrite fmap_app. apply prefix_app_r. reflexivity.
  - rewrite rewrite_row_ids by reflexivity. reflexivity.
Qed.

(** X10.  Rows are never removed and ids never change or get reused:
    whatever requests are served, every row of the table is still there
    under its id with its [created_at], and the ids of the old table are
    the first ids of the new one. *)
Theorem rows_are_kept (reqs : list request) (db : Session) (x : Recipe.t) :
  primary_key db → x ∈ db →
  (∃ x', x' ∈ serve_all reqs db ∧ Recipe.id x' = Recipe.id x
         ∧ Recipe.created_at x' = Recipe.created_at x)
  ∧ (Recipe.id <$> db) `prefix_of` (Recipe.id <$> serve_all reqs db)
  ∧ (length db ≤ length (serve_all reqs db))%nat.
Proof.
  unfold serve_all. revert db x.
  induction reqs as [|req reqs IH]; intros db x Hpk Hx.
  - split; [exists x; auto|]. split; reflexivity.
  - cbn [foldl].
    destruct (serve_keeps_rows req db x Hpk Hx) as (y & Hy & Hyi & Hyc).
    destruct (IH (serve req db) y (serve_primary_key req db Hpk) Hy)
      as ((z & Hz & Hzi & Hzc) & Hpre & Hlen).
    split; [exists z; split; [exact Hz | split; congruence]|].
    pose proof (serve_ids_prefix req db) as Hstep.
    split; [etrans; eassumption|].
    apply prefix_length in Hstep. rewrite !length_fmap in Hstep. lia.
Qed.

Lemma rows_are_kept_witness :
  primary_key db1
  ∧ (length db1 ≤ length (serve_all [DELETE_recipe 2000 1;
                                      POST_recipes 3000 3000 sample_recipe] db1))%nat.
Proof.
  split; [exact (proj1 schema_db1)|].
  refine (proj2 (proj2 (rows_are_kept _ db1 (record_of 1 1000 1000 sample_recipe)
                          (proj1 schema_db1) _))).
  vm_compute. left.
Defined.

(** ** Statistics and the lifecycle *)

Lemma flags_partition (db : Session) :
  flags_ok db →
  (length (filter (fun r => Recipe.is_deleted r = "false") db)
   + length (filter (fun r => Recipe.is_deleted r = "true") db)
   = length db)%nat.
Proof.
  unfold flags_ok. induction db as [|x db IH]; intros Hf; [reflexivity|].
  assert (IH' := IH (fun r Hr => Hf r (list_elem_of_further _ _ _ Hr))).
  rewrite !filter_cons.
  destruct (Hf x ltac:(left)) as [Hx|Hx]; rewrite Hx.
  - rewrite decide_True, decide_False by done. cbn [length]. lia.
  - rewrite decide_False, decide_True by done. cbn [length]. lia.
Qed.

(** X11.  On every table the API produces, the two totals of the
    statistics add up to the number of rows ever created. *)
Theorem stats_totals_add_up (now : Z) (db : Session) :
  reachable db →
  (total_recipes (get_stats now db) + total_deleted (get_stats now db)
   = length db)%nat.
Proof.
  intros [reqs ->]. cbn [get_stats total_recipes total_deleted].
  apply flags_partition, serve_all_flags_ok.
  intros r Hr. inversion Hr.
Qed.

Lemma stats_totals_add_up_witness :
  reachable db_stats
  ∧ (total_recipes (get_stats 5 db_stats) + total_deleted (get_stats 5 db_stats)
     = 3)%nat.
Proof.
  assert (H : reachable db_stats) by (eexists; reflexivity).
  split; [exact H|]. exact (stats_totals_add_up 5 db_stats H).
Defined.

Lemma rewrite_row_absent i r' (db : Session) :
  i ∉ Recipe.id <$> db → rewrite_row i r' db = db.
Proof.
  intros Hi. unfold rewrite_row. rewrite <- (list_fmap_id db) at 2.
  apply list_fmap_ext. intros k x Hx. case_decide as Hd; [|reflexivity].
  exfalso. apply Hi. rewrite <- Hd.
  apply elem_of_ids, list_elem_of_lookup. eauto.
Qed.

(** Rewriting one row changes a count by what the old and the new row
    contribute to it. *)
Lemma filter_rewrite_row_length (P : Recipe.t → Prop) `{!∀ r, Decision (P r)}
  i r r' (db : Session) :
  primary_key db → r ∈ db → Recipe.id r = i →
  (length (filter P (rewrite_row i r' db)) + (if decide (P r) then 1 else 0)
   = length (filter P db) + (if decide (P r') then 1 else 0))%nat.
Proof.
  unfold primary_key. induction db as [|x db IH]; intros Hnd Hr Hi;
    [inversion Hr|].
  rewrite fmap_cons in Hnd. apply NoDup_cons in Hnd as [Hx Hnd].
  apply elem_of_cons in Hr as [Heq|Hr].
  - subst x. unfold rewrite_row. rewrite fmap_cons, decide_True by exact Hi.
    fold (rewrite_row i r' db).
    rewrite rewrite_row_absent by (rewrite <- Hi; exact Hx).
    rewrite !filter_cons.
    destruct (decide (P r)), (decide (P r')); cbn [length]; lia.
  - assert (Hne : Recipe.id x ≠ i).
    { intros Heq. apply Hx. rewrite Heq, <- Hi. apply elem_of_ids, Hr. }
    unfold rewrite_row. rewrite fmap_cons, decide_False by exact Hne.
    fold (rewrite_row i r' db). specialize (IH Hnd Hr Hi).
    rewrite !filter_cons. destruct (decide (P x)); cbn [length]; lia.
Qed.

Lemma delete_recipe_active now i db r :
  schema db → r ∈ db → Recipe.id r = i → Recipe.is_deleted r = "false" →
  delete_recipe now i db
  = (Ok "Receta eliminada exitosamente",
     rewrite_row i (set_updated_at (set_is_deleted r "true") now) db).
Proof.
  intros [Hpk Hnn] Hr Hi Hd. unfold delete_recipe.
  rewrite (get_recipe_by_id_elem db i r Hpk Hr Hi Hd).
  rewrite commit_update_rewrite_row
    by (rewrite not_null_violation_flags; apply Hnn, Hr).
  destruct (set_updated_at_spec (set_is_deleted r "true") now) as (-> & _).
  destruct (set_is_deleted_spec r "true") as (-> & _).
  rewrite Hi. reflexivity.
Qed.

(** X12.  A successful soft delete moves exactly one record from the
    active total of the statistics to the deleted total. *)
Theorem delete_moves_one_in_stats (now t i : Z) (db : Session) (r : Recipe.t) :
  schema db → r ∈ db → Recipe.id r = i → Recipe.is_deleted r = "false" →
  let db' := snd (delete_recipe now i db) in
  (total_recipes (get_stats t db') + 1 = total_recipes (get_stats t db))%nat
  ∧ (total_deleted (get_stats t db') = total_deleted (get_stats t db) + 1)%nat
  ∧ length db' = length db.
Proof.
  intros Hs Hr Hi Hd db'. unfold db'.
  rewrite (delete_recipe_active now i db r Hs Hr Hi Hd). cbn [snd].
  set (r' := set_updated_at (set_is_deleted r "true") now).
  assert (Hr' : Recipe.is_deleted r' = "true").
  { unfold r'. destruct (set_updated_at_spec (set_is_deleted r "true") now)
      as (_ & _ & _ & -> & _).
    apply set_is_deleted_spec. }
  cbn [get_stats total_recipes total_deleted].
  pose proof (filter_rewrite_row_length
                (fun x => Recipe.is_deleted x = "false") i r r' db
                (proj1 Hs) Hr Hi) as H1.
  pose proof (filter_rewrite_row_length
                (fun x => Recipe.is_deleted x = "true") i r r' db
                (proj1 Hs) Hr Hi) as H2.
  cbn beta in H1, H2.
  rewrite (decide_True _ _ Hd), decide_False in H1
    by (rewrite Hr'; discriminate).
  rewrite decide_False, (decide_True _ _ Hr') in H2
    by (rewrite Hd; discriminate).
  split; [lia|]. split; [lia|]. unfold rewrite_row. apply length_fmap.
Qed.

Lemma delete_moves_one_in_stats_witness :
  schema db1
  ∧ total_deleted (get_stats 5 (snd (delete_recipe 2000 1 db1)))
    = (total_deleted (get_stats 5 db1) + 1)%nat.
Proof.
  split; [exact schema_db1|].
  refine (proj1 (proj2 (delete_moves_one_in_stats 2000 5 1 db1
                          (record_of 1 1000 1000 sample_recipe) schema_db1 _ _ _)));
    [vm_compute; left | reflexivity | reflexivity].
Defined.

Lemma filter_and_length (P Q : Recipe.t → Prop) `{!∀ r, Decision (P r)}
  `{!∀ r, Decision (Q r)} (db : Session) :
  (length (filter (fun r => P r ∧ Q r) db) ≤ length (filter P db))%nat.
Proof.
  induction db as [|x db IH]; [reflexivity|]. rewrite !filter_cons.
  destruct (decide (P x ∧ Q x)) as [[HP _]|Hn].
  - rewrite decide_True by exact HP. cbn [length]. lia.
  - destruct (decide (P x)); cbn [length]; lia.
Qed.

(** X13.  The statistics never report a category with a zero count, and
    no category count exceeds the active total. *)
Theorem stats_entries_bounded (now : Z) (db : Session) (c : string) (n : nat) :
  categories (get_stats now db) !! c = Some n →
  (1 ≤ n ∧ n ≤ total_recipes (get_stats now db))%nat.
Proof.
  intros H. apply get_stats_categories in H as (_ & (r & Hr & Hd & Hc) & ->).
  unfold count_in_category. split.
  - assert (Hin : r ∈ filter (fun x => Recipe.is_deleted x = "false"
                                       ∧ Recipe.category x = Some c) db)
      by (apply list_elem_of_filter; auto).
    destruct (filter _ db); [inversion Hin | cbn [length]; lia].
  - cbn [get_stats total_recipes]. apply filter_and_length.
Qed.

Lemma stats_entries_bounded_witness :
  categories (get_stats 5 db_stats) !! "cena" = Some 1%nat
  ∧ (1 ≤ total_recipes (get_stats 5 db_stats))%nat.
Proof.
  assert (H : categories (get_stats 5 db_stats) !! "cena" = Some 1%nat)
    by reflexivity.
  split; [exact H|].
  exact (proj2 (stats_entries_bounded 5 db_stats "cena" 1%nat H)).
Defined.

(** ** Listing and search requests *)




Lemma matches_percent_later d p s :
  (∀ s', Like.matches d p s' = true) → Like.matches d (Like.percent :: p) s = true.
Proof. intros H. rewrite matches_percent, H. reflexivity. Qed.

Lemma contains_percent d column :
  Like.contains d column "%" = bool_decide (column ≠ None).
Proof.
  destruct column as [s|]; [|reflexivity]. cbn [Like.contains].
  change (Str.chars "%") with [Like.percent]. cbn [app].
  rewrite matches_percent_later; [reflexivity|].
  intros s1. apply matches_percent_later. intros s2. apply matches_any.
Qed.

(** X16.  The query is not escaped: searching for "%" returns every
    non-deleted record whose selected column is not NULL, on either
    engine. *)
Theorem search_percent_returns_all (d : dialect) (db : Session) :
  search_recipes d "%" "name" db
  = Ok (filter (fun r => Recipe.is_deleted r = "false"
                         ∧ Recipe.name r ≠ None) db)
  ∧ search_recipes d "%" "ingredient" db
    = Ok (filter (fun r => Recipe.is_deleted r = "false"
                           ∧ Recipe.ingredients r ≠ None) db)
  ∧ search_recipes d "%" "category" db
    = Ok (filter (fun r => Recipe.is_deleted r = "false"
                           ∧ Recipe.category r ≠ None) db).
Proof.
  assert (H : ∀ column : Recipe.t → option string,
            filter (fun r => Like.contains d (column r) "%" = true
                             ∧ Recipe.is_deleted r = "false") db
            = filter (fun r => Recipe.is_deleted r = "false"
                               ∧ column r ≠ None) db).
  { intros column. apply list_filter_iff. intros r.
    rewrite contains_percent, bool_decide_eq_true. tauto. }
  unfold search_recipes, search_recipes_by_name, search_recipes_by_ingredient,
    search_recipes_by_category.
  cbn [Str.truthy negb search_type_ok String.eqb Ascii.eqb Bool.eqb orb].
  rewrite !H. repeat split.
Qed.

(** X17.  Search results are a sub-sequence of the full listing: every
    record found is non-deleted and the results come in table order. *)
Theorem search_results_in_listing (d : dialect) (q type : string)
  (db : Session) (rs : list Recipe.t) :
  search_recipes d q type db = Ok rs →
  rs `sublist_of` filter (fun r => Recipe.is_deleted r = "false") db.
Proof.
  assert (H : ∀ column : Recipe.t → option string,
            filter (fun r => Like.contains d (column r) q = true
                             ∧ Recipe.is_deleted r = "false") db
            `sublist_of` filter (fun r => Recipe.is_deleted r = "false") db).
  { intros column.
    rewrite <- (list_filter_filter
                  (fun r => Like.contains d (column r) q = true)
                  (fun r => Recipe.is_deleted r = "false")).
    apply sublist_filter. }
  unfold search_recipes, search_recipes_by_name, search_recipes_by_ingredient,
    search_recipes_by_category.
  destruct (negb _); [discriminate|]. destruct (negb _); [discriminate|].
  repeat (destruct (String.eqb type _); [intros [= <-]; apply H|]).
  discriminate.
Qed.

Lemma search_results_in_listing_witness :
  search_recipes SQLite "pasta" "ingredient" db_stats
  = Ok (filter (fun r => Recipe.is_deleted r = "false") db_stats)
  ∧ filter (fun r => Recipe.is_deleted r = "false") db_stats
    `sublist_of` filter (fun r => Recipe.is_deleted r = "false") db_stats.
Proof.
  assert (H : search_recipes SQLite "pasta" "ingredient" db_stats
              = Ok (filter (fun r => Recipe.is_deleted r = "false") db_stats))
    by reflexivity.
  split; [exact H|]. exact (search_results_in_listing _ _ _ _ _ H).
Defined.

(** ** Case folding on SQLite *)

Lemma ascii_lower_percent c :
  Ascii.eqb (Str.ascii_lower c) Like.percent = Ascii.eqb c Like.percent.
Proof. destruct c as [[] [] [] [] [] [] [] []]; reflexivity. Qed.

Lemma ascii_lower_underscore c :
  Ascii.eqb (Str.ascii_lower c) Like.underscore = Ascii.eqb c Like.underscore.
Proof. destruct c as [[] [] [] [] [] [] [] []]; reflexivity. Qed.

Lemma ascii_lower_idem c : Str.ascii_lower (Str.ascii_lower c) = Str.ascii_lower c.
Proof. destruct c as [[] [] [] [] [] [] [] []]; reflexivity. Qed.

Lemma matches_sqlite_cons c p s :
  Like.matches SQLite (c :: p) s =
  if Ascii.eqb c Like.percent then
    Like.matches SQLite p s
    || match s with [] => false | _ :: s' => Like.matches SQLite (c :: p) s' end
  else if Ascii.eqb c Like.underscore then
    match s with [] => false | _ :: s' => Like.matches SQLite p s' end
  else
    match s with
    | [] => false
    | b :: s' => Like.same_char SQLite c b && Like.matches SQLite p s'
    end.
Proof.
  cbn [Like.matches Like.is_escape].
  destruct (Ascii.eqb c Like.percent); [destruct s; reflexivity|].
  destruct (Ascii.eqb c Like.underscore); reflexivity.
Qed.

(** On SQLite the pattern can be lower-cased without changing the match. *)
Lemma matches_sqlite_lower p : ∀ s,
  Like.matches SQLite (map Str.ascii_lower p) s = Like.matches SQLite p s.
Proof.
  induction p as [|c p IH]; intros s; [reflexivity|].
  cbn [map]. induction s as [|b s IHs];
    rewrite (matches_sqlite_cons (Str.ascii_lower c)), (matches_sqlite_cons c),
      ascii_lower_percent, ascii_lower_underscore, ?IH;
    unfold Like.same_char, Like.fold_case; rewrite ?ascii_lower_idem, ?IHs;
    reflexivity.
Qed.

Lemma contains_sqlite_lower column q :
  Like.contains SQLite column (Str.lower q) = Like.contains SQLite column q.
Proof.
  destruct column as [s|]; [|reflexivity]. unfold Like.contains, Str.lower.
  rewrite chars_of_chars.
  change (Like.percent :: map Str.ascii_lower (Str.chars q) ++ [Like.percent])
    with (Str.ascii_lower Like.percent
          :: map Str.ascii_lower (Str.chars q) ++ map Str.ascii_lower [Like.percent]).
  rewrite <- map_app. apply (matches_sqlite_lower (Like.percent :: _)).
Qed.

Lemma lower_truthy q : Str.truthy (Str.lower q) = Str.truthy q.
Proof. destruct q; reflexivity. Qed.

(** X18.  On SQLite the search ignores the case of ASCII letters in the
    query: two queries that differ only in letter case get the same
    answer. *)
Theorem sqlite_search_ignores_case (q q' type : string) (db : Session) :
  Str.lower q = Str.lower q' →
  search_recipes SQLite q type db = search_recipes SQLite q' type db.
Proof.
  intros Hq.
  assert (Ht : Str.truthy q = Str.truthy q')
    by (rewrite <- (lower_truthy q), <- (lower_truthy q'), Hq; reflexivity).
  assert (H : ∀ column : Recipe.t → option string,
            filter (fun r => Like.contains SQLite (column r) q = true
                             ∧ Recipe.is_deleted r = "false") db
            = filter (fun r => Like.contains SQLite (column r) q' = true
                               ∧ Recipe.is_deleted r = "false") db).
  { intros column. apply list_filter_iff. intros r.
    rewrite <- (contains_sqlite_lower _ q), <- (contains_sqlite_lower _ q'), Hq.
    tauto. }
  unfold search_recipes, search_recipes_by_name, search_recipes_by_ingredient,
    search_recipes_by_category.
  rewrite Ht, !H. reflexivity.
Qed.

Lemma sqlite_search_ignores_case_witness :
  Str.lower "CARBONARA" = Str.lower "carbonara"
  ∧ search_recipes SQLite "CARBONARA" "name" db1 = Ok db1.
Proof.
  assert (H : Str.lower "CARBONARA" = Str.lower "carbonara") by reflexivity.
  split; [exact H|].
  rewrite (sqlite_search_ignores_case "CARBONARA" "carbonara" "name" db1 H).
  reflexivity.
Defined.

(** ** Image upload *)

Lemma split_chars_last sep l :
  ∃ p, last (split_chars sep l) = Some p
       ∧ (sep ∉ p)
       ∧ ((split_chars sep l = [p] ∧ l = p)
          ∨ (∃ pre, l = pre ++ sep :: p ∧ (2 ≤ length (split_chars sep l))%nat)).
Proof.
  induction l as [|c l (p & Hlast & Hsep & Hl)].
  - exists []. cbn. split; [reflexivity|]. split; [apply not_elem_of_nil|auto].
  - cbn [split_chars]. destruct (Ascii.eqb_spec c sep) as [->|Hne].
    + exists p. destruct (split_chars sep l) as [|part parts] eqn:E;
        [discriminate Hlast|].
      split; [exact Hlast|]. split; [exact Hsep|]. right.
      destruct Hl as [[_ ->]|(pre & -> & _)].
      * exists []. split; [reflexivity | cbn; lia].
      * exists (sep :: pre). split; [reflexivity | cbn; lia].
    + destruct (split_chars sep l) as [|part parts] eqn:E;
        [discriminate Hlast|].
      destruct Hl as [[[= -> ->] ->]|(pre & -> & Hlen)].
      * exists (c :: p). split; [reflexivity|]. split; [|auto].
        intros Hin. apply elem_of_cons in Hin as [?|?]; [congruence|contradiction].
      * exists p. destruct parts as [|part' parts]; [cbn in Hlen; lia|].
        split; [exact Hlast|]. split; [exact Hsep|]. right.
        exists (c :: pre). split; [reflexivity | cbn; lia].
Qed.

(** X19.  The stored extension is what follows the last dot of the
    filename, or the whole filename when it has no dot; it never contains a
    dot. *)
Theorem file_extension_spec (filename : string) :
  let ext := Str.chars (file_extension filename) in
  ("."%char ∉ ext)
  ∧ (Str.chars filename = ext
     ∨ ∃ stem, Str.chars filename = stem ++ "."%char :: ext).
Proof.
  cbn zeta. unfold file_extension. rewrite chars_of_chars.
  destruct (split_chars_last "."%char (Str.chars filename))
    as (p & -> & Hsep & Hl).
  cbn [default]. split; [exact Hsep|].
  destruct Hl as [[_ ->]|(pre & -> & _)]; eauto.
Qed.

(** X20.  An upload is stored exactly when its content type is one of the
    four allowed image types, its size is unknown, zero or at most 5 MiB,
    it carries a filename and the file could be written.  The answer then
    gives the URL [/static/images/<uuid>.<extension>]; any other upload is
    answered 400 or 500. *)
Theorem upload_image_is_stored_iff (uuid4 : string) (written : bool)
  (image : UploadFile.t) :
  ((∃ resp, upload_image uuid4 written image = Ok resp)
   ↔ (∃ c, UploadFile.content_type image = Some c ∧ c ∈ allowed_types)
     ∧ (∀ n, UploadFile.size image = Some n → n = 0 ∨ n ≤ max_upload_size)
     ∧ (∃ filename, UploadFile.filename image = Some filename)
     ∧ written = true)
  ∧ match upload_image uuid4 written image with
    | Ok resp =>
      ∃ filename,
        UploadFile.filename image = Some filename
        ∧ image_url resp
          = String.append "/static/images/"
              (String.append uuid4 (String.append "." (file_extension filename)))
    | HTTPException code _ => code = 400 ∨ code = 500
    end.
Proof.
  unfold upload_image, type_rejected, size_rejected.
  destruct image as [fn ct sz]. cbn [UploadFile.content_type UploadFile.size
                                     UploadFile.filename].
  destruct ct as [c|]; cbn [negb].
  2: { split; [|auto]. split; [intros [? [=]]|].
       intros ((c & [=] & _) & _). }
  destruct (bool_decide_reflect (c ∈ allowed_types)) as [Hc|Hc]; cbn [negb].
  2: { split; [|auto]. split; [intros [? [=]]|].
       intros ((c' & [= <-] & Hin) & _). contradiction. }
  assert (Hsz : (match sz with
                 | Some n => negb (n =? 0) && (max_upload_size <? n)
                 | None => false
                 end = false)
                ↔ ∀ n, sz = Some n → n = 0 ∨ n ≤ max_upload_size).
  { destruct sz as [n|]; [|split; [intros _ n [=] | reflexivity]]. split.
    - intros Hn m [= <-]. destruct (Z.eqb_spec n 0) as [|_]; [auto|].
      destruct (Z.ltb_spec max_upload_size n) as [_|Hle]; [discriminate Hn|auto].
    - intros Hn. destruct (Hn n eq_refl) as [->|Hle]; [reflexivity|].
      destruct (Z.ltb_spec max_upload_size n) as [Hlt|_]; [lia|].
      apply andb_false_r. }
  destruct (match sz with Some _ => _ | None => _ end).
  { split; [|auto]. split; [intros [? [=]]|].
    intros (_ & H & _). apply Hsz in H. discriminate. }
  destruct fn as [filename|].
  2: { split; [|auto]. split; [intros [? [=]]|].
       intros (_ & _ & (? & [=]) & _). }
  destruct written.
  - split; [|eauto]. split; [intros _|eauto].
    split; [eauto|]. split; [apply Hsz; reflexivity|]. eauto.
  - split; [|auto]. split; [intros [? [=]]|]. intros (_ & _ & _ & [=]).
Qed.

(** ** Database URL *)

Lemma replace_first_chars_prefix old new l :
  Str.prefix_chars old l = true →
  replace_first_chars old new l = new ++ drop (length old) l.
Proof. intros H. destruct l; cbn [replace_first_chars]; rewrite H; reflexivity. Qed.

Lemma of_chars_chars s : Str.of_chars (Str.chars s) = s.
Proof. apply String.string_of_list_ascii_of_string. Qed.

Lemma prefix_chars_app p : ∀ l,
  Str.prefix_chars p l = true → l = p ++ drop (length p) l.
Proof.
  induction p as [|a p IH]; intros [|b l] H; try reflexivity;
    cbn [Str.prefix_chars] in H; [discriminate H|].
  apply andb_prop in H as [He H]. apply Ascii.eqb_eq in He. subst b.
  cbn [app length drop]. f_equal. apply IH, H.
Qed.

Lemma of_chars_app a b :
  Str.of_chars (a ++ b) = String.append (Str.of_chars a) (Str.of_chars b).
Proof.
  induction a as [|c a IH]; [reflexivity|].
  cbn [app]. unfold Str.of_chars in *. cbn [String.string_of_list_ascii String.append].
  rewrite IH. reflexivity.
Qed.

Lemma database_url_postgres url :
  startswith url "postgres://" = true →
  ∃ rest, url = String.append "postgres://" rest
          ∧ database_url (Some url) = String.append "postgresql://" rest.
Proof.
  change (database_url (Some url))
    with (if startswith url "postgres://"
          then replace_first url "postgres://" "postgresql://" else url).
  unfold startswith, replace_first.
  intros H. rewrite H, (replace_first_chars_prefix _ _ _ H).
  exists (Str.of_chars (drop (length (Str.chars "postgres://")) (Str.chars url))).
  split.
  - rewrite <- (of_chars_chars url) at 1.
    rewrite (prefix_chars_app _ _ H) at 1. apply of_chars_app.
  - apply of_chars_app.
Qed.

(** X21.  The database URL never keeps the scheme [postgres://]: such a
    URL has its scheme, and nothing else, rewritten to [postgresql://];
    every other URL is used as given, the default being the local SQLite
    file; and normalising twice changes nothing more. *)
Theorem database_url_normalised (env : option string) (url rest : string) :
  startswith (database_url env) "postgres://" = false
  ∧ database_url (Some (String.append "postgres://" rest))
    = String.append "postgresql://" rest
  ∧ (startswith url "postgres://" = false → database_url (Some url) = url)
  ∧ database_url None = "sqlite:///./recipes.db"
  ∧ database_url (Some (database_url env)) = database_url env.
Proof.
  assert (Hkeep : ∀ u, startswith u "postgres://" = false →
                       database_url (Some u) = u).
  { intros u Hu.
    change (database_url (Some u))
      with (if startswith u "postgres://"
            then replace_first u "postgres://" "postgresql://" else u).
    rewrite Hu. reflexivity. }
  assert (Hnever : startswith (database_url env) "postgres://" = false).
  { set (u := default "sqlite:///./recipes.db" env).
    assert (Heq : database_url env = database_url (Some u)) by reflexivity.
    rewrite Heq. destruct (startswith u "postgres://") eqn:Hu.
    - destruct (database_url_postgres u Hu) as (r & _ & ->). reflexivity.
    - rewrite (Hkeep u Hu). exact Hu. }
  split; [exact Hnever|]. split; [|split; [apply Hkeep|split; [reflexivity|]]].
  - destruct (database_url_postgres (String.append "postgres://" rest) eq_refl)
      as (r & Hr & ->).
    cbn in Hr. injection Hr as Hr. change (rest = r) in Hr. subst r.
    reflexivity.
  - apply Hkeep, Hnever.
Qed.

Lemma database_url_normalised_witness :
  startswith "sqlite:///./test.db" "postgres://" = false
  ∧ database_url (Some "sqlite:///./test.db") = "sqlite:///./test.db".
Proof.
  split; [reflexivity|].
  exact (proj1 (proj2 (proj2 (database_url_normalised None "sqlite:///./test.db" ""))) eq_refl).
Defined.
